(** * ACTINN-PyTorch, [ACTINN/Data_IO/CSV_IO.py]: label codec, [scale_sets]
      and the body of [CSV_IO]

    A shallow embedding of the three functions of [CSV_IO.py] that carry the
    data preparation ([type2label_dict], [convert_type2label], [scale_sets])
    and of the body of [CSV_IO] between what it reads and what it hands to
    the data loaders.

    - NumPy's element arithmetic is an interface ([Arith]): the pipeline is
      written once over it, and is run on IEEE-754 binary32 ([Binary32], the
      [dtype=np.float32] of the source).
    - Python exceptions are values of [exn], tagged with the source line
      that raises them.
    - The list object [sets] that [scale_sets] overwrites lives in a store
      of list objects ([heap]); [scale_sets] takes and returns a reference. *)

From Stdlib Require Import ZArith List Bool Lia SpecFloat OrdersEx.
From stdpp Require Import gmap strings list sorting.

Open Scope Z_scope.

(** ** Exceptions *)

(** The exceptions the three functions can raise; the [nat] is the line of
    [CSV_IO.py] whose evaluation raises. *)
Inductive exn : Type :=
  | IndexError (line : nat)
  | KeyError (line : nat) (key : string)
  | InvalidIndexError (line : nat)
  | AttributeError (line : nat)
  | TypeError (line : nat)
  | ValueError (line : nat).

Definition raised_at (e : exn) : nat :=
  match e with
  | IndexError n | KeyError n _ | InvalidIndexError n | AttributeError n
  | TypeError n | ValueError n => n
  end.

Definition result (A : Type) : Type := exn + A.

#[export] Instance result_ret : MRet result := λ A a, inr a.
#[export] Instance result_bind : MBind result :=
  λ A B k r, match r with inl e => inl e | inr a => k a end.

(** [raises_within lo hi r]: [r] is an exception raised by one of the lines
    [lo..hi]. *)
Definition raises_within {A} (lo hi : nat) (r : result A) : Prop :=
  ∃ e, r = inl e ∧ (lo ≤ raised_at e ≤ hi)%nat.

(** ** Element arithmetic *)

(** What the pipeline asks of the array element type.  [of_Z] is the
    conversion NumPy applies to a Python [int] operand (the [20000], the [1]
    and the element counts of [np.mean] / [np.std]). *)
Class Arith (F : Type) := {
  fzero : F;
  fnan : F;
  of_Z : Z → F;
  fadd : F → F → F;
  fsub : F → F → F;
  fmul : F → F → F;
  fdiv : F → F → F;
  fsqrt : F → F;
  flog2 : F → F;
  feq : F → F → bool;
  flt : F → F → bool;
  fle : F → F → bool;
  fisnan : F → bool
}.

(** The order facts used about the zero-mean mask: a value strictly above
    zero is not equal to zero, and the mean of an empty row ([0 / 0]) is not
    above zero. *)
Class ArithLaws (F : Type) `{Arith F} : Prop := {
  flt_zero_neq : ∀ x : F, flt fzero x = true → feq x fzero = false;
  zero_div_zero_not_pos : flt fzero (fdiv fzero (of_Z 0)) = false
}.

(** ** IEEE-754 binary32 *)

Module Binary32.

Definition float32 : Type := spec_float.
Definition prec : Z := 24.
Definition emax : Z := 128.

Definition of_int (z : Z) : float32 := binary_normalize prec emax z 0 false.

Definition isnan (x : float32) : bool :=
  match x with S754_nan => true | _ => false end.

(** [np.log2] on float32.  IEEE 754 fixes the special values; on positive
    finite arguments the last bit of NumPy's kernel is platform dependent,
    and this definition rounds a 40-bit digit-by-digit approximation
    (square the mantissa, emit a bit whenever it reaches 2). *)
Fixpoint log2_digits (n : nat) (y acc : Z) : Z :=
  match n with
  | O => acc
  | S n' =>
      let y2 := Z.shiftr (y * y) 60 in
      if 2 ^ 61 <=? y2
      then log2_digits n' (Z.shiftr y2 1) (2 * acc + 1)
      else log2_digits n' y2 (2 * acc)
  end.

Definition log2 (x : float32) : float32 :=
  match x with
  | S754_nan => S754_nan
  | S754_zero _ => S754_infinity true
  | S754_infinity false => S754_infinity false
  | S754_infinity true => S754_nan
  | S754_finite true _ _ => S754_nan
  | S754_finite false m e =>
      let k := Z.log2 (Z.pos m) in
      let y := Z.shiftl (Z.pos m) (60 - k) in
      binary_normalize prec emax ((e + k) * 2 ^ 40 + log2_digits 40 y 0) (-40) false
  end.

(** NaN or +Inf: what line 78 leaves in a column whose sum was zero. *)
Definition nan_or_inf (x : float32) : Prop :=
  x = S754_nan ∨ x = S754_infinity false.




#[global] Instance arith : Arith float32 := {|
  fzero := S754_zero false;
  fnan := S754_nan;
  of_Z := of_int;
  fadd := SFadd prec emax;
  fsub := SFsub prec emax;
  fmul := SFmul prec emax;
  fdiv := SFdiv prec emax;
  fsqrt := SFsqrt prec emax;
  flog2 := log2;
  feq := SFeqb;
  flt := SFltb;
  fle := SFleb;
  fisnan := isnan
|}.

End Binary32.

(** ** Data model *)

(** A pandas [DataFrame]: row labels ([index]), column labels ([columns])
    and the table, one list per row.  The entries are taken as line 76
    converts them, in the element type of the arrays. *)
Record DataFrame (F : Type) := mkFrame {
  index : list string;
  columns : list string;
  values : list (list F)
}.
Arguments mkFrame {F} _ _ _.
Arguments index {F} _.
Arguments columns {F} _.
Arguments values {F} _.

(** A two-dimensional [np.ndarray] of shape [(length rows, ncols)]: the
    column count is kept apart from the rows, as NumPy keeps it when an
    array has no row left. *)
Record ndarray (F : Type) := mkArray {
  ncols : nat;
  rows : list (list F)
}.
Arguments mkArray {F} _ _.
Arguments ncols {F} _.
Arguments rows {F} _.

Definition wf_frame {F} (df : DataFrame F) : Prop :=
  NoDup (index df) ∧
  length (values df) = length (index df) ∧
  Forall (λ r, length r = length (columns df)) (values df).

Definition wf_array {F} (a : ndarray F) : Prop :=
  Forall (λ r, length r = ncols a) (rows a).

(** What an element of the Python list [sets] can be: a frame on entry, an
    array on exit. *)
Inductive pyval (F : Type) : Type :=
  | VFrame (df : DataFrame F)
  | VArray (a : ndarray F).
Arguments VFrame {F} _.
Arguments VArray {F} _.

(** ** The store of list objects *)

Definition ref : Type := positive.
Abbreviation heap F := (gmap ref (list (pyval F))).

(** A computation reads and writes the store and returns a value or raises;
    the writes made before an exception stay. *)
Definition Py (F A : Type) : Type := heap F → result A * heap F.

#[export] Instance Py_ret {F} : MRet (Py F) := λ A a h, (inr a, h).
#[export] Instance Py_bind {F} : MBind (Py F) :=
  λ A B k c h, match c h with
               | (inl e, h') => (inl e, h')
               | (inr a, h') => k a h'
               end.

Definition raise {F A} (e : exn) : Py F A := λ h, (inl e, h).

Definition lift {F A} (r : result A) : Py F A := λ h, (r, h).

(** [len(l)] *)
Definition list_len {F} (line : nat) (l : ref) : Py F nat :=
  λ h, match h !! l with
       | Some xs => (inr (length xs), h)
       | None => (inl (TypeError line), h)
       end.

(** [l[i]] *)
Definition list_getitem {F} (line : nat) (l : ref) (i : nat) : Py F (pyval F) :=
  λ h, match h !! l with
       | Some xs => match xs !! i with
                    | Some v => (inr v, h)
                    | None => (inl (IndexError line), h)
                    end
       | None => (inl (TypeError line), h)
       end.

(** [l[i] = v] *)
Definition list_setitem {F} (line : nat) (l : ref) (i : nat) (v : pyval F) : Py F unit :=
  λ h, match h !! l with
       | Some xs => if decide (i < length xs)%nat
                    then (inr (), <[l := <[i := v]> xs]> h)
                    else (inl (IndexError line), h)
       | None => (inl (TypeError line), h)
       end.

(** [for i in range(a, n): acc = body(i, acc)] *)
Fixpoint for_each {F S} (idx : list nat) (body : nat → S → Py F S) (acc : S) : Py F S :=
  match idx with
  | [] => mret acc
  | i :: idx' => acc' ← body i acc; for_each idx' body acc'
  end.

Definition for_range {F S} (a n : nat) (body : nat → S → Py F S) (acc : S) : Py F S :=
  for_each (seq a (n - a)) body acc.

(** ** pandas and NumPy operations used by [scale_sets] *)

(** The order of [sorted] on identifiers: lexicographic on character codes. *)
Definition str_le (a b : string) : Prop := String_as_OT.compare a b ≠ Gt.

#[export] Instance str_le_dec a b : Decision (str_le a b).
Proof. unfold str_le. apply _. Defined.

(** [sorted(list(s))] for a Python set [s] of strings.  The iteration order
    of the set is whatever [elements] gives: sorting forgets it
    ([sorted_set_unique] below). *)
Definition sorted_set (s : gset string) : list string :=
  merge_sort str_le (elements s).

(** [mask] indexing along the rows: [a[mask,]]. *)
Fixpoint compress {A} (mask : list bool) (l : list A) : list A :=
  match mask, l with
  | b :: mask', x :: l' => if b then x :: compress mask' l' else compress mask' l'
  | _, _ => []
  end.

Section Operations.
Context {F : Type} `{Arith F}.

(** [df.loc[labels,]]: for each label in turn, the rows that carry it;
    a label that labels no row raises [KeyError]. *)
Definition loc_label (line : nat) (df : DataFrame F) (g : string)
  : result (list (string * list F)) :=
  match filter (λ kr, kr.1 = g) (zip (index df) (values df)) with
  | [] => inl (KeyError line g)
  | ms => inr ms
  end.

Definition loc (line : nat) (df : DataFrame F) (labels : list string)
  : result (DataFrame F) :=
  ms ← mapM (loc_label line df) labels;
  mret (mkFrame ((concat ms).*1) (columns df) ((concat ms).*2)).

(** [pd.concat(objs, axis=1, sort=False)] on frames that carry the same
    row labels: the columns are put side by side.  Frames whose row
    labels differ are re-indexed on the union of the labels, which raises
    [InvalidIndexError] when an index has duplicates; after line 74 row
    labels can only differ that way. *)
Definition hstack (blocks : list (list (list F))) (n : nat) : list (list F) :=
  map (λ k, concat (map (λ b, nth k b []) blocks)) (seq 0 n).

Definition pd_concat (line : nat) (objs : list (DataFrame F)) : result (DataFrame F) :=
  match objs with
  | [] => inl (ValueError line)
  | df0 :: rest =>
      if forallb (λ df, bool_decide (index df = index df0)) rest
      then inr (mkFrame (index df0) (concat (columns <$> objs))
                        (hstack (values <$> objs) (length (index df0))))
      else inl (InvalidIndexError line)
  end.

(** [np.array(df, dtype=np.float32)] *)
Definition np_array (df : DataFrame F) : ndarray F :=
  mkArray (length (columns df)) (values df).

(** [np.sum] of a vector, accumulated from the first element on (on long
    contiguous rows NumPy adds pairwise, which can only change the last
    bits of a float32 sum). *)
Definition np_sum (v : list F) : F :=
  match v with
  | [] => fzero
  | x :: xs => fold_left fadd xs x
  end.

Definition column (j : nat) (a : ndarray F) : list F :=
  map (λ r, nth j r fzero) (rows a).

(** [np.sum(a, axis=0, keepdims=True)] *)
Definition np_sum_axis0 (a : ndarray F) : list F :=
  map (λ j, np_sum (column j a)) (seq 0 (ncols a)).

(** [np.sum(a, axis=1)] *)
Definition np_sum_axis1 (a : ndarray F) : list F := map np_sum (rows a).

(** [np.mean(a, axis=1)], one row *)
Definition np_mean (r : list F) : F :=
  fdiv (np_sum r) (of_Z (Z.of_nat (length r))).

(** [np.std(a, axis=1)], one row: [ddof] is left at its default 0. *)
Definition np_std (r : list F) : F :=
  let m := np_mean r in
  fsqrt (fdiv (np_sum (map (λ x, fmul (fsub x m) (fsub x m)) r))
              (of_Z (Z.of_nat (length r)))).

(** Insertion into a list kept in [<=] order. *)
Fixpoint insert_sorted (x : F) (l : list F) : list F :=
  match l with
  | [] => [x]
  | y :: l' => if fle x y then x :: l else y :: insert_sorted x l'
  end.

Definition sort_values (l : list F) : list F := foldr insert_sorted [] l.

(** NumPy's [_lerp a b t] with [t = num / den]. *)
Definition lerp (a b : F) (num den : Z) : F :=
  let t := fdiv (of_Z num) (of_Z den) in
  if den <=? 2 * num
  then fsub b (fmul (fsub b a) (fsub (of_Z 1) t))
  else fadd a (fmul (fsub b a) t).

(** [np.percentile(v, q)], default method (linear interpolation between
    the two ranks around [(n-1) * q / 100]).  A [q] outside [0, 100]
    raises [ValueError], an empty [v] raises [IndexError] (NumPy reads
    the last element of the partitioned data to look for NaN); a NaN
    anywhere in [v] makes the result NaN.  The position [(n-1) * q / 100]
    is taken exactly and the interpolation is done in the element
    arithmetic; the precision NumPy uses in between depends on its
    release. *)
Definition np_percentile (line : nat) (v : list F) (q : Z) : result F :=
  if (q <? 0) || (100 <? q) then inl (ValueError line)
  else
    match v with
    | [] => inl (IndexError line)
    | _ =>
        let h := (Z.of_nat (length v) - 1) * q in
        let lo := Z.to_nat (h / 100) in
        let hi := Nat.min (lo + 1) (length v - 1) in
        let s := sort_values v in
        inr (if existsb fisnan v then fnan
             else lerp (nth lo s fnan) (nth hi s fnan) (h mod 100) 100)
    end.

(** [np.logical_and(x >= p1, x <= p99)] *)
Definition in_band (p1 p99 x : F) : bool := fle p1 x && fle x p99.

(** [np.logical_and(v >= np.percentile(v, 1), v <= np.percentile(v, 99))] *)
Definition percentile_mask (line : nat) (v : list F) : result (list bool) :=
  p1 ← np_percentile line v 1;
  p99 ← np_percentile line v 99;
  mret (map (in_band p1 p99) v).

(** [a[:, lo:hi]] *)
Definition slice_columns (lo hi : nat) (a : ndarray F) : ndarray F :=
  mkArray (Nat.min hi (ncols a) - Nat.min lo (ncols a))
          (map (λ r, take (hi - lo) (drop lo r)) (rows a)).

(** *** The statements of [scale_sets] on [total_set] *)

(** Line 77: [np.divide(total_set, np.sum(total_set, axis=0, keepdims=True)) * 20000] *)
Definition library_size_normalize (a : ndarray F) : ndarray F :=
  let s := np_sum_axis0 a in
  mkArray (ncols a)
          (map (λ r, map (λ x, fmul x (of_Z 20000)) (zip_with fdiv r s)) (rows a)).

(** Line 78: [np.log2(total_set + 1)] *)
Definition log_transform (a : ndarray F) : ndarray F :=
  mkArray (ncols a) (map (map (λ x, flog2 (fadd x (of_Z 1)))) (rows a)).

(** Lines 79-80 *)
Definition expression_filter (a : ndarray F) : result (ndarray F) :=
  let expr := np_sum_axis1 a in
  mask ← percentile_mask 80 expr;
  mret (mkArray (ncols a) (compress mask (rows a))).

(** Lines 84-86 *)
Definition zero_mean_filter (a : ndarray F) : ndarray F :=
  let mean_expr := map np_mean (rows a) in
  let non_zero_mean_mask := map (flt fzero) mean_expr in
  mkArray (ncols a) (compress non_zero_mean_mask (rows a)).

(** Line 89 *)
Definition cv_row (r : list F) : F := fdiv (np_std r) (np_mean r).
Definition cv_vector (a : ndarray F) : list F := map cv_row (rows a).

(** Lines 89-90 *)
Definition cv_filter (a : ndarray F) : result (ndarray F) :=
  let cv := cv_vector a in
  mask ← percentile_mask 90 cv;
  mret (mkArray (ncols a) (compress mask (rows a))).

(** Lines 77-90 *)
Definition normalize_and_filter (total_set : ndarray F) : result (ndarray F) :=
  let total_set := library_size_normalize total_set in
  let total_set := log_transform total_set in
  total_set ← expression_filter total_set;
  let total_set := zero_mean_filter total_set in
  cv_filter total_set.

(** *** [scale_sets] *)

Definition as_frame (e : exn) (v : pyval F) : Py F (DataFrame F) :=
  match v with
  | VFrame df => mret df
  | VArray _ => raise e
  end.

(** The elements of the list, as [pd.concat] walks them. *)
Definition list_frames (line : nat) (l : ref) : Py F (list (DataFrame F)) :=
  n ← list_len line l;
  for_range 0 n (λ i acc,
    v ← list_getitem line l i;
    df ← as_frame (TypeError line) v;
    mret (acc ++ [df])) [].

(** Lines 67-94.  The three [print] calls (lines 71, 81, 91) and the
    assignment to [mean_expr] of line 87, which is not read again, have no
    part in the result and are left out. *)
Definition scale_sets (sets : ref) : Py F ref :=
  (* 67 *)
  s0 ← list_getitem 67 sets 0;
  df0 ← as_frame (AttributeError 67) s0;
  let common_genes := list_to_set (index df0) : gset string in
  (* 68-69 *)
  n ← list_len 68 sets;
  common_genes ← for_range 1 n (λ i (common_genes : gset string),
    si ← list_getitem 69 sets i;
    dfi ← as_frame (AttributeError 69) si;
    mret (list_to_set (index dfi) ∩ common_genes)) common_genes;
  (* 70 *)
  let common_genes := sorted_set common_genes in
  (* 72-75 *)
  let sep_point := [0%nat] in
  n ← list_len 73 sets;
  sep_point ← for_range 0 n (λ i sep_point,
    si ← list_getitem 74 sets i;
    dfi ← as_frame (AttributeError 74) si;
    aligned ← lift (loc 74 dfi common_genes);
    list_setitem 74 sets i (VFrame aligned);;
    si ← list_getitem 75 sets i;
    dfi ← as_frame (AttributeError 75) si;
    mret (sep_point ++ [length (columns dfi)])) sep_point;
  (* 76 *)
  objs ← list_frames 76 sets;
  combined ← lift (pd_concat 76 objs);
  let total_set := np_array combined in
  (* 77-90 *)
  total_set ← lift (normalize_and_filter total_set);
  (* 92-93 *)
  n ← list_len 92 sets;
  for_range 0 n (λ i (_ : unit),
    list_setitem 93 sets i
      (VArray (slice_columns (sum_list (take (i + 1) sep_point))
                             (sum_list (take (i + 2) sep_point)) total_set))) ();;
  (* 94 *)
  mret sets.

End Operations.

(** ** The label codec *)

(** A Python [dict]: its items in insertion order, the keys distinct. *)
Definition pydict (K V : Type) : Type := list (K * V).

Section Dict.
Context {K V : Type} `{EqDecision K}.

(** [d.get(k)] *)
Fixpoint dict_lookup (d : pydict K V) (k : K) : option V :=
  match d with
  | [] => None
  | (k', v) :: d' => if decide (k = k') then Some v else dict_lookup d' k
  end.

(** [d[k] = v]: a key already present keeps its place. *)
Fixpoint dict_setitem (d : pydict K V) (k : K) (v : V) : pydict K V :=
  match d with
  | [] => [(k, v)]
  | (k', v') :: d' =>
      if decide (k = k') then (k', v) :: d' else (k', v') :: dict_setitem d' k v
  end.
End Dict.

(** [d[k]] *)
Definition dict_getitem {V} (line : nat) (d : pydict string V) (k : string) : result V :=
  match dict_lookup d k with
  | Some v => inr v
  | None => inl (KeyError line k)
  end.

Section Codec.
(** [list(set(types))]: the order in which a Python set is walked is not
    fixed by the language; every order without repetition is allowed
    (the two hypotheses of [CodecFacts] below). *)
Variable set_iter : list string → list string.

Definition type2label_dict (types : list string) : pydict string nat :=
  let all_celltype := set_iter types in
  foldl (λ celltype_to_label_dict i,
           dict_setitem celltype_to_label_dict (nth i all_celltype "") i)
        [] (seq 0 (length all_celltype)).

(** [{v: k for k, v in type_to_label_dict.items()}] (line 148) *)
Definition label_to_type_dict (type_to_label_dict : pydict string nat)
  : pydict nat string :=
  foldl (λ acc kv, dict_setitem acc kv.2 kv.1) [] type_to_label_dict.

(** [len(type_to_label_dict.keys())] (line 177) *)
Definition num_classes (type_to_label_dict : pydict string nat) : nat :=
  length type_to_label_dict.
End Codec.

(** Lines 49-53 *)
Fixpoint convert_loop {V} (types : list string) (type_to_label_dict : pydict string V)
    (labels : list V) : result (list V) :=
  match types with
  | [] => inr labels
  | type :: types' =>
      match dict_getitem 52 type_to_label_dict type with
      | inr v => convert_loop types' type_to_label_dict (labels ++ [v])
      | inl e => inl e
      end
  end.

Definition convert_type2label {V} (types : list string)
    (type_to_label_dict : pydict string V) : result (list V) :=
  convert_loop types type_to_label_dict [].

(** ** What [scale_sets] computes, stage by stage

    The values that the statements of [scale_sets] hold when it runs on a
    list of frames; [scale_sets_run] below shows that the run of the source
    text produces exactly these. *)

Section Stages.
Context {F : Type} `{Arith F}.

(** [common_genes] after line 70 *)
Definition common_genes (frames : list (DataFrame F)) : list string :=
  match frames with
  | [] => []
  | df0 :: rest =>
      sorted_set (foldl (λ acc df, list_to_set (index df) ∩ acc)
                        (list_to_set (index df0)) rest)
  end.

(** The list [sets] after the loop of lines 73-75 *)
Definition aligned_sets (frames : list (DataFrame F)) : result (list (DataFrame F)) :=
  mapM (λ df, loc 74 df (common_genes frames)) frames.

(** The row of [df] labelled [g]. *)
Definition row_of (df : DataFrame F) (g : string) (r : list F) : Prop :=
  ∃ i, index df !! i = Some g ∧ values df !! i = Some r.

(** What line 74 makes of a frame [df]: same columns, one row per label
    of [cg], in the order of [cg]. *)
Definition aligned_to (cg : list string) (df al : DataFrame F) : Prop :=
  index al = cg ∧ columns al = columns df ∧ Forall2 (row_of df) cg (values al).

(** [sep_point] after the loop of lines 73-75 *)
Definition sep_points (aligned : list (DataFrame F)) : list nat :=
  0%nat :: map (λ df, length (columns df)) aligned.

(** [total_set] after line 76 *)
Definition combined (aligned : list (DataFrame F)) : result (ndarray F) :=
  df ← pd_concat 76 aligned; mret (np_array df).

(** [total_set] when line 89 is reached *)
Definition before_cv (total_set : ndarray F) : result (ndarray F) :=
  m ← expression_filter (log_transform (library_size_normalize total_set));
  mret (zero_mean_filter m).

(** The logged matrix of line 78 *)
Definition logged_matrix (frames : list (DataFrame F)) : result (ndarray F) :=
  aligned ← aligned_sets frames;
  total_set ← combined aligned;
  mret (log_transform (library_size_normalize total_set)).

(** The rows of [total_set] when line 89 is reached; none when an earlier
    line has raised. *)
Definition rows_reaching_cv (frames : list (DataFrame F)) : list (list F) :=
  match (aligned_sets frames ≫= combined) ≫= before_cv with
  | inr m => rows m
  | inl _ => []
  end.

(** The list [sets] after the loop of lines 92-93 *)
Definition resplit (sep_point : list nat) (total_set : ndarray F) (n : nat)
  : list (ndarray F) :=
  map (λ i, slice_columns (sum_list (take (i + 1) sep_point))
                          (sum_list (take (i + 2) sep_point)) total_set)
      (seq 0 n).

(** The mask over the rows of the logged matrix that lines 80-90 apply in
    three steps: [m2] is a mask over the rows that [m1] keeps. *)
Fixpoint mask_then (m1 m2 : list bool) : list bool :=
  match m1 with
  | [] => []
  | false :: m1' => false :: mask_then m1' m2
  | true :: m1' =>
      match m2 with
      | [] => false :: mask_then m1' []
      | b :: m2' => b :: mask_then m1' m2'
      end
  end.

(** *** Division with the divisor checked

    The CV computation of line 89 again, stopping where a division by
    zero would occur: [np.mean] and [np.std] divide by the element count,
    which is zero for an empty row; line 89 divides by the mean. *)
Definition checked_div (a b : F) : option F :=
  if feq b fzero then None else Some (fdiv a b).

Definition np_mean_checked (r : list F) : option F :=
  if (length r =? 0)%nat then None
  else Some (fdiv (np_sum r) (of_Z (Z.of_nat (length r)))).

Definition np_std_checked (r : list F) : option F :=
  m ← np_mean_checked r;
  if (length r =? 0)%nat then None
  else Some (fsqrt (fdiv (np_sum (map (λ x, fmul (fsub x m) (fsub x m)) r))
                         (of_Z (Z.of_nat (length r))))).

Definition cv_row_checked (r : list F) : option F :=
  s ← np_std_checked r;
  m ← np_mean_checked r;
  checked_div s m.

End Stages.

(** ** Sample inputs *)

#[export] Instance wf_frame_dec {F} (df : DataFrame F) : Decision (wf_frame df).
Proof. unfold wf_frame. apply _. Defined.

#[export] Instance wf_array_dec {F} (a : ndarray F) : Decision (wf_array a).
Proof. unfold wf_array. apply _. Defined.

Module Examples.
Import Binary32.

(** A frame of counts. *)
Definition frame (idx cols : list string) (counts : list (list Z)) : DataFrame float32 :=
  mkFrame idx cols (map (map of_int) counts).

Definition sets_ref : ref := 1%positive.

(** A store in which [sets_ref] is the list of the frames. *)
Definition store_of (frames : list (DataFrame float32)) : heap float32 :=
  {[ sets_ref := VFrame <$> frames ]}.

(** Genes A-D over two cells and genes B-E over one cell; the common
    genes B, C, D have the same profile. *)
Definition uniform_sets : list (DataFrame float32) :=
  [ frame ["A"; "B"; "C"; "D"] ["c1"; "c2"] [[1; 2]; [1; 3]; [1; 3]; [1; 3]];
    frame ["B"; "C"; "D"; "E"] ["d1"] [[2]; [2]; [2]; [4]] ].

(** Two genes, one expressed and one not. *)
Definition two_gene_sets : list (DataFrame float32) :=
  [ frame ["A"; "B"] ["c1"] [[1]; [0]];
    frame ["A"; "B"] ["d1"] [[1]; [0]] ].

(** No gene in common. *)
Definition disjoint_sets : list (DataFrame float32) :=
  [ frame ["A"] ["c1"; "c2"] [[1; 2]];
    frame ["E"] ["d1"] [[4]] ].

(** Cell c2 has no count at all. *)
Definition zero_column_sets : list (DataFrame float32) :=
  [ frame ["A"; "B"] ["c1"; "c2"] [[1; 0]; [2; 0]];
    frame ["A"; "B"] ["d1"] [[3]; [4]] ].

(** The combined matrix of [zero_column_sets]. *)
Definition zero_column_total : ndarray float32 :=
  mkArray 3 (map (map of_int) [[1; 0; 3]; [2; 0; 4]]).


(** A logged matrix of three genes over two cells. *)
Definition small_matrix : ndarray float32 :=
  mkArray 2 [[of_int 1; of_int 2]; [of_int 0; of_int 0]; [of_int 5; of_int 6]].


Definition train_labels : list string := ["T cell"; "B cell"; "T cell"; "NK cell"].
Definition test_labels : list string := ["B cell"; "T cell"].

(** One possible walk of a set: last occurrences, in order. *)
Definition last_occurrences : list string → list string := remove_dups.
End Examples.

(** ** The body of [CSV_IO]

    Lines 121-122, 130-131 and 144-166 of [CSV_IO], between what it reads
    (the two tables and the two label columns, after [read_hdf], [read_csv]
    and [sample]) and what it hands to [DataLoader] (the two lists of
    records and the number of classes). *)

(** [index.duplicated(keep='first')]: every occurrence of a label after
    its first one is marked. *)
Fixpoint duplicated_from (seen l : list string) : list bool :=
  match l with
  | [] => []
  | x :: l' => bool_decide (x ∈ seen) :: duplicated_from (x :: seen) l'
  end.

Definition duplicated (l : list string) : list bool := duplicated_from [] l.

(** [r] is a rectangular table under the labels of [df], as every
    [DataFrame] is. *)
Definition rectangular {F} (df : DataFrame F) : Prop :=
  length (values df) = length (index df) ∧
  Forall (λ r, length r = length (columns df)) (values df).

#[export] Instance rectangular_dec {F} (df : DataFrame F) : Decision (rectangular df).
Proof. unfold rectangular. apply _. Defined.

(** [l = [a, b, ...]]: a new list object, at a reference not in use. *)
Definition new_list {F} (xs : list (pyval F)) : Py F ref :=
  λ h, let l := fresh (dom h) in (inr l, <[l := xs]> h).

Section Orchestrator.
Context {F : Type} `{Arith F}.

(** [str.upper]; [set(...)] walked in some order. *)
Variable str_upper : string → string.
Variable set_iter : list string → list string.

(** Lines 121-122 (130-131):
    [df.index = [s.upper() for s in df.index]],
    [df = df.loc[~df.index.duplicated(keep='first')]]. *)
Definition upper_dedup (df : DataFrame F) : DataFrame F :=
  let idx := map str_upper (index df) in
  let keep := map negb (duplicated idx) in
  mkFrame (compress keep idx) (columns df) (compress keep (values df)).

(** [np.transpose(a)] *)
Definition np_transpose (a : ndarray F) : ndarray F :=
  mkArray (length (rows a)) (map (λ j, column j a) (seq 0 (ncols a))).

(** Lines 161-163 (165-166):
    [for i in range(len(data)): out.append([data[i], labels[i]])]. *)
Fixpoint pair_loop (line : nat) (data : list (list F)) (labels : list nat)
    (idx : list nat) (out : list (list F * nat)) : result (list (list F * nat)) :=
  match idx with
  | [] => inr out
  | i :: idx' =>
      match data !! i, labels !! i with
      | Some x, Some y => pair_loop line data labels idx' (out ++ [(x, y)])
      | _, _ => inl (IndexError line)
      end
  end.

Definition pair_records (line : nat) (data : ndarray F) (labels : list nat)
  : result (list (list F * nat)) :=
  pair_loop line (rows data) labels (seq 0 (length (rows data))) [].

(** [a, b = l] *)
Definition unpack2 (line : nat) (l : ref) : Py F (pyval F * pyval F) :=
  n ← list_len line l;
  if (n =? 2)%nat
  then a ← list_getitem line l 0; b ← list_getitem line l 1; mret (a, b)
  else raise (ValueError line).

(** After a return of [scale_sets] every element of the list is an array;
    the other case does not arise. *)
Definition as_array (e : exn) (v : pyval F) : Py F (ndarray F) :=
  match v with
  | VArray a => mret a
  | VFrame _ => raise e
  end.

Definition CSV_IO (train_set test_set : DataFrame F)
    (train_label test_label : list string)
  : Py F (list (list F * nat) * list (list F * nat) * nat) :=
  (* 121-122 *)
  let train_set := upper_dedup train_set in
  (* 130-131 *)
  let test_set := upper_dedup test_set in
  (* 144 *)
  sets ← new_list [VFrame train_set; VFrame test_set];
  sets ← scale_sets sets;
  '(train_set, test_set) ← unpack2 144 sets;
  (* 147-148 *)
  let type_to_label_dict := type2label_dict set_iter train_label in
  let label_to_type_dict := label_to_type_dict type_to_label_dict in
  (* 152-153 *)
  train_label ← lift (convert_type2label train_label type_to_label_dict);
  test_label ← lift (convert_type2label test_label type_to_label_dict);
  (* 155-156 *)
  train_set ← as_array (TypeError 155) train_set;
  test_set ← as_array (TypeError 156) test_set;
  let train_set := np_transpose train_set in
  let test_set := np_transpose test_set in
  (* 161-163 *)
  data_and_labels ← lift (pair_records 163 train_set train_label);
  (* 165-166 *)
  validation_data_and_labels ← lift (pair_records 166 test_set test_label);
  (* 177 *)
  mret (data_and_labels, validation_data_and_labels, num_classes type_to_label_dict).

(** Lines 147-177 on the two arrays that [scale_sets] has returned: no
    statement of these lines reads or writes the list. *)
Definition after_scale_sets (train_set test_set : ndarray F)
    (train_label test_label : list string)
  : result (list (list F * nat) * list (list F * nat) * nat) :=
  let type_to_label_dict := type2label_dict set_iter train_label in
  train_label ← convert_type2label train_label type_to_label_dict;
  test_label ← convert_type2label test_label type_to_label_dict;
  data_and_labels ← pair_records 163 (np_transpose train_set) train_label;
  validation_data_and_labels ← pair_records 166 (np_transpose test_set) test_label;
  mret (data_and_labels, validation_data_and_labels, num_classes type_to_label_dict).

End Orchestrator.

(** [str.upper] on identifiers written in ASCII. *)
Definition ascii_upper (c : Ascii.ascii) : Ascii.ascii :=
  let n := Ascii.nat_of_ascii c in
  if (97 <=? n)%nat && (n <=? 122)%nat then Ascii.ascii_of_nat (n - 32) else c.

Fixpoint upper_ascii (s : string) : string :=
  match s with
  | EmptyString => EmptyString
  | String c s' => String (ascii_upper c) (upper_ascii s')
  end.

Module MoreExamples.
Import Binary32.

(** Gene Tp53 is listed twice, in two spellings. *)
Definition raw_train : DataFrame float32 :=
  Examples.frame ["Actb"; "Tp53"; "TP53"; "Gapdh"; "Myc"] ["c1"; "c2"]
                 [[1; 2]; [1; 3]; [7; 7]; [1; 3]; [1; 3]].

Definition raw_test : DataFrame float32 :=
  Examples.frame ["GAPDH"; "myc"; "tp53"; "Cd4"] ["d1"]
                 [[2]; [2]; [2]; [4]].

Definition cell_types : list string := ["T cell"; "B cell"].
Definition test_types : list string := ["B cell"].
End MoreExamples.

(** * Properties *)

(** ** Dictionaries *)

Section DictFacts.
Context {K V : Type} `{EqDecision K}.
Implicit Types (d : pydict K V) (k : K) (v : V).

Lemma dict_lookup_setitem_eq d k v : dict_lookup (dict_setitem d k v) k = Some v.
Proof.
  induction d as [|[k' v'] d IH]; simpl.
  - by rewrite decide_True.
  - destruct (decide (k = k')) as [->|Hne]; simpl.
    + by rewrite decide_True.
    + by rewrite decide_False.
Qed.

Lemma dict_lookup_setitem_ne d k k' v :
  k ≠ k' → dict_lookup (dict_setitem d k v) k' = dict_lookup d k'.
Proof.
  intros Hne. induction d as [|[k0 v0] d IH]; simpl.
  - rewrite decide_False; [done | congruence].
  - destruct (decide (k = k0)) as [->|Hne0]; simpl.
    + rewrite !decide_False; [done | congruence | congruence].
    + destruct (decide (k' = k0)); [done | apply IH].
Qed.

Lemma dict_lookup_None d k : dict_lookup d k = None ↔ k ∉ d.*1.
Proof.
  induction d as [|[k' v'] d IH]; simpl.
  - split; [intros _; apply not_elem_of_nil | done].
  - rewrite not_elem_of_cons. destruct (decide (k = k')) as [->|Hne].
    + split; [done | intros [? _]; done].
    + rewrite IH. split; [by intros ? | by intros [_ ?]].
Qed.

Lemma dict_setitem_fresh d k v : k ∉ d.*1 → dict_setitem d k v = d ++ [(k, v)].
Proof.
  induction d as [|[k' v'] d IH]; simpl; [done|].
  rewrite not_elem_of_cons. intros [Hne Hnin].
  rewrite decide_False by done. by rewrite IH.
Qed.

Lemma dict_lookup_zip (ks : list K) (vs : list V) i k v :
  NoDup ks → ks !! i = Some k → vs !! i = Some v →
  dict_lookup (zip ks vs) k = Some v.
Proof.
  intros Hnd. revert vs i. induction Hnd as [|k0 ks Hnin Hnd IH]; intros vs i Hk Hv.
  - by rewrite lookup_nil in Hk.
  - destruct vs as [|v0 vs]; [by rewrite lookup_nil in Hv|].
    destruct i as [|i]; simpl in *.
    + simplify_eq. by rewrite decide_True.
    + rewrite decide_False; [by eapply IH|].
      intros ->. apply Hnin. by eapply list_elem_of_lookup_2.
Qed.

Lemma dict_lookup_zip_inv (ks : list K) (vs : list V) k v :
  dict_lookup (zip ks vs) k = Some v →
  ∃ i, ks !! i = Some k ∧ vs !! i = Some v.
Proof.
  revert vs. induction ks as [|k0 ks IH]; intros [|v0 vs]; simpl; try done.
  destruct (decide (k = k0)) as [->|Hne].
  - intros [= ->]. by exists 0%nat.
  - intros (i & ? & ?)%IH. by exists (S i).
Qed.
End DictFacts.

(** ** The label codec *)

Section CodecFacts.
Variable set_iter : list string → list string.
Hypothesis set_iter_NoDup : ∀ l, NoDup (set_iter l).
Hypothesis set_iter_elem : ∀ l x, x ∈ set_iter l ↔ x ∈ l.

(** The loop of lines 32-33 numbers the walked labels from 0. *)
Lemma type2label_loop (L : list string) (n : nat) :
  NoDup L → (n ≤ length L)%nat →
  foldl (λ d i, dict_setitem d (nth i L "") i) [] (seq 0 n)
  = zip (take n L) (seq 0 n).
Proof.
  intros Hnd. induction n as [|n IH]; intros Hn; [done|].
  rewrite seq_S, foldl_app, IH by lia. simpl.
  destruct (lookup_lt_is_Some_2 L n) as [x Hx]; [lia|].
  rewrite (take_S_r _ _ _ Hx), nth_lookup, Hx. simpl.
  rewrite dict_setitem_fresh.
  - rewrite zip_with_app; [done|]. rewrite length_take, length_seq. lia.
  - rewrite fst_zip by (rewrite length_take, length_seq; lia).
    intros (i & Hi)%list_elem_of_lookup_1.
    pose proof (lookup_lt_Some _ _ _ Hi) as Hlt. rewrite length_take in Hlt.
    rewrite lookup_take_lt in Hi by lia.
    assert (i = n) by (eapply NoDup_lookup; eauto). lia.
Qed.

Lemma type2label_dict_zip (types : list string) :
  type2label_dict set_iter types
  = zip (set_iter types) (seq 0 (length (set_iter types))).
Proof.
  unfold type2label_dict.
  rewrite type2label_loop by (auto; lia). by rewrite firstn_all.
Qed.

(** The comprehension of line 148 swaps the items when no two keys carry
    the same value. *)
Lemma label_to_type_loop (d : pydict string nat) (acc : pydict nat string) :
  NoDup (acc.*1 ++ d.*2) →
  foldl (λ acc kv, dict_setitem acc kv.2 kv.1) acc d
  = acc ++ map (λ kv, (kv.2, kv.1)) d.
Proof.
  revert acc. induction d as [|[k v] d IH]; intros acc Hnd; simpl.
  - by rewrite app_nil_r.
  - simpl in Hnd. apply NoDup_app in Hnd as (Hacc & Hdisj & Hd).
    apply NoDup_cons in Hd as [Hv Hd].
    rewrite dict_setitem_fresh.
    + rewrite IH; [by rewrite <-app_assoc|].
      rewrite fmap_app. simpl. rewrite <-app_assoc. simpl.
      apply NoDup_app. split_and!; [done| |by constructor].
      intros x Hx. by apply Hdisj.
    + intros Hin. apply (Hdisj v Hin). by left.
Qed.

Lemma label_to_type_dict_zip (L : list string) :
  label_to_type_dict (zip L (seq 0 (length L))) = zip (seq 0 (length L)) L.
Proof.
  unfold label_to_type_dict. rewrite label_to_type_loop.
  - simpl. generalize 0%nat. induction L as [|x L IH]; intros a; simpl; [done|].
    by rewrite IH.
  - simpl. rewrite snd_zip by (rewrite length_seq; lia). apply NoDup_seq.
Qed.

Lemma type2label_lookup (types : list string) (s : string) (c : nat) :
  dict_lookup (type2label_dict set_iter types) s = Some c
  ↔ set_iter types !! c = Some s.
Proof.
  rewrite type2label_dict_zip. split.
  - intros (i & Hi & Hc)%dict_lookup_zip_inv.
    apply lookup_seq in Hc as [-> _]. done.
  - intros Hc. eapply dict_lookup_zip; eauto.
    apply lookup_seq. split; [done|]. by eapply lookup_lt_Some.
Qed.

Lemma type2label_lookup_None (types : list string) (s : string) :
  dict_lookup (type2label_dict set_iter types) s = None ↔ s ∉ types.
Proof.
  rewrite dict_lookup_None, type2label_dict_zip.
  rewrite fst_zip by (rewrite length_seq; lia).
  by rewrite set_iter_elem.
Qed.

Lemma label_to_type_lookup (types : list string) (s : string) (c : nat) :
  dict_lookup (label_to_type_dict (type2label_dict set_iter types)) c = Some s
  ↔ set_iter types !! c = Some s.
Proof.
  rewrite type2label_dict_zip, label_to_type_dict_zip. split.
  - intros (i & Hi & Hs)%dict_lookup_zip_inv.
    apply lookup_seq in Hi as [-> _]. done.
  - intros Hc. eapply dict_lookup_zip; eauto using NoDup_seq.
    apply lookup_seq. split; [done|]. by eapply lookup_lt_Some.
Qed.
End CodecFacts.

Section ConvertFacts.
Context {V : Type}.
Implicit Types (d : pydict string V) (types : list string) (labels : list V).

Lemma convert_loop_inr types d acc labels :
  convert_loop types d acc = inr labels
  ↔ ∃ cs, labels = acc ++ cs ∧ Forall2 (λ t c, dict_lookup d t = Some c) types cs.
Proof.
  revert acc. induction types as [|t types IH]; intros acc; simpl.
  - split.
    + intros [= <-]. exists []. by rewrite app_nil_r.
    + intros (cs & -> & ->%Forall2_nil_inv_l). by rewrite app_nil_r.
  - unfold dict_getitem. destruct (dict_lookup d t) as [v|] eqn:Hv.
    + rewrite IH. split.
      * intros (cs & -> & Hcs). exists (v :: cs).
        rewrite <-app_assoc. split; [done|]. by constructor.
      * intros (cs & -> & Hcs). apply Forall2_cons_inv_l in Hcs as (c & cs' & Hc & Hcs' & ->).
        exists cs'. rewrite <-app_assoc. by simplify_eq.
    + split; [done|]. intros (cs & _ & Hcs).
      apply Forall2_cons_inv_l in Hcs as (c & cs' & Hc & _). congruence.
Qed.

Lemma convert_loop_inl types d acc e :
  convert_loop types d acc = inl e
  ↔ ∃ pre t post, types = pre ++ t :: post ∧ e = KeyError 52 t ∧
      dict_lookup d t = None ∧ Forall (λ x, is_Some (dict_lookup d x)) pre.
Proof.
  revert acc. induction types as [|t types IH]; intros acc; simpl.
  - split; [done|]. intros (pre & t & post & Heq & _). by destruct pre.
  - unfold dict_getitem. destruct (dict_lookup d t) as [v|] eqn:Hv.
    + rewrite IH. split.
      * intros (pre & t' & post & -> & -> & Hnone & Hpre).
        exists (t :: pre), t', post. split_and!; try done.
        constructor; [by rewrite Hv | done].
      * intros (pre & t' & post & Heq & -> & Hnone & Hpre).
        destruct pre as [|p pre]; simpl in Heq; simplify_eq.
        apply Forall_cons in Hpre as [_ Hpre].
        by exists pre, t', post.
    + split.
      * intros [= <-]. exists [], t, types. split_and!; try done.
      * intros (pre & t' & post & Heq & -> & Hnone & Hpre).
        destruct pre as [|p pre]; simpl in Heq; simplify_eq; [done|].
        apply Forall_cons in Hpre as [[? Hp] _]. congruence.
Qed.
End ConvertFacts.

(** C8. [convert_type2label] returns the codes found by looking every label
    up in the dictionary; it raises [KeyError] (at line 52, on the first
    label without an entry) exactly when some label has no entry, which for
    the dictionary built by [type2label_dict] means a label that is not
    among the training labels. *)
Theorem convert_type2label_spec
    (set_iter : list string → list string)
    (set_iter_NoDup : ∀ l, NoDup (set_iter l))
    (set_iter_elem : ∀ l x, x ∈ set_iter l ↔ x ∈ l)
    {V : Type} (types : list string) (d : pydict string V) (train : list string) :
  (∀ labels, convert_type2label types d = inr labels
             ↔ Forall2 (λ t c, dict_lookup d t = Some c) types labels)
  ∧ ((∃ e, convert_type2label types d = inl e)
     ↔ ∃ t, t ∈ types ∧ dict_lookup d t = None)
  ∧ (∀ e, convert_type2label types d = inl e
          → ∃ t, e = KeyError 52 t ∧ t ∈ types ∧ dict_lookup d t = None)
  ∧ ((∃ e, convert_type2label types (type2label_dict set_iter train) = inl e)
     ↔ ∃ t, t ∈ types ∧ t ∉ train).
Proof.
  assert (Hraise : ∀ W (d' : pydict string W),
    (∃ e, convert_type2label types d' = inl e)
    ↔ ∃ t, t ∈ types ∧ dict_lookup d' t = None).
  { intros W d'. unfold convert_type2label. split.
    - intros (e & (pre & t & post & -> & _ & Hnone & _)%convert_loop_inl).
      exists t. split; [|done]. apply elem_of_app. right. by left.
    - intros (t & Hin & Hnone).
      destruct (convert_loop types d' []) as [e|labels] eqn:Hrun; [by exists e|].
      apply convert_loop_inr in Hrun as (cs & _ & Hcs).
      apply list_elem_of_lookup_1 in Hin as [i Hi].
      destruct (Forall2_lookup_l _ _ _ _ _ Hcs Hi) as (c & _ & Hc). congruence. }
  split_and!.
  - intros labels. unfold convert_type2label. rewrite convert_loop_inr. split.
    + by intros (cs & -> & Hcs).
    + intros Hcs. by exists labels.
  - apply Hraise.
  - intros e (pre & t & post & -> & -> & Hnone & _)%convert_loop_inl.
    exists t. split_and!; try done. apply elem_of_app. right. by left.
  - rewrite Hraise. split; intros (t & Hin & Ht); exists t; split; try done.
    + by apply (type2label_lookup_None set_iter set_iter_NoDup set_iter_elem train t).
    + by apply (type2label_lookup_None set_iter set_iter_NoDup set_iter_elem train t).
Qed.

(** C9. The dictionary built by [type2label_dict] and the one obtained by
    swapping its items (line 148) are inverse to each other, every label
    of the input has a code, every code is below [num_classes], and
    [num_classes] is the number of distinct labels. *)
Theorem label_codec_inverse
    (set_iter : list string → list string)
    (set_iter_NoDup : ∀ l, NoDup (set_iter l))
    (set_iter_elem : ∀ l x, x ∈ set_iter l ↔ x ∈ l)
    (types : list string) :
  let type_to_label := type2label_dict set_iter types in
  let label_to_type := label_to_type_dict type_to_label in
  (∀ s, s ∈ types →
        ∃ c, dict_lookup type_to_label s = Some c ∧ dict_lookup label_to_type c = Some s)
  ∧ (∀ s c, dict_lookup type_to_label s = Some c ↔ dict_lookup label_to_type c = Some s)
  ∧ (∀ s c, dict_lookup type_to_label s = Some c → (c < num_classes type_to_label)%nat)
  ∧ num_classes type_to_label = length (remove_dups types).
Proof.
  intros type_to_label label_to_type. subst type_to_label label_to_type.
  pose proof (type2label_lookup set_iter set_iter_NoDup types) as Hfwd.
  pose proof (label_to_type_lookup set_iter set_iter_NoDup types) as Hbwd.
  split_and!.
  - intros s Hs. apply set_iter_elem in Hs.
    apply list_elem_of_lookup_1 in Hs as [c Hc]. exists c.
    by rewrite Hfwd, Hbwd.
  - intros s c. by rewrite Hfwd, Hbwd.
  - intros s c Hc. apply Hfwd in Hc.
    apply lookup_lt_Some in Hc. unfold num_classes.
    rewrite type2label_dict_zip by done.
    rewrite length_zip_with, length_seq. lia.
  - unfold num_classes. rewrite type2label_dict_zip by done.
    rewrite length_zip_with, length_seq, Nat.min_id.
    apply Permutation_length, NoDup_Permutation;
      [done | apply NoDup_remove_dups |].
    intros x. by rewrite set_iter_elem, elem_of_remove_dups.
Qed.

(** ** The order on identifiers and [sorted] *)

#[export] Instance str_le_total : Total str_le.
Proof.
  intros a b. unfold str_le.
  destruct (String_as_OT.compare_spec a b) as [_|_|Hlt]; [by left | by left |].
  right. unfold String_as_OT.lt in Hlt. by rewrite Hlt.
Qed.

#[export] Instance str_le_trans : Transitive str_le.
Proof.
  intros a b c. unfold str_le.
  destruct (String_as_OT.compare_spec a b) as [->|Hab|_];
    [by intros _ ? | | by intros ?].
  destruct (String_as_OT.compare_spec b c) as [<-|Hbc|_]; [| |by intros _ ?].
  - intros _ _. unfold String_as_OT.lt in Hab. by rewrite Hab.
  - intros _ _. pose proof (transitivity (R:=String_as_OT.lt) Hab Hbc) as Hac.
    unfold String_as_OT.lt in Hac. by rewrite Hac.
Qed.

#[export] Instance str_le_antisym : AntiSymm (=) str_le.
Proof.
  intros a b. unfold str_le.
  destruct (String_as_OT.compare_spec a b) as [->|Hab|_]; [done| |by intros ?].
  destruct (String_as_OT.compare_spec b a) as [->|Hba|_]; [done| |by intros _ ?].
  pose proof (transitivity (R:=String_as_OT.lt) Hab Hba) as Haa.
  by apply (irreflexivity String_as_OT.lt) in Haa.
Qed.

Lemma sorted_set_elem (s : gset string) (x : string) : x ∈ sorted_set s ↔ x ∈ s.
Proof. unfold sorted_set. by rewrite merge_sort_Permutation, elem_of_elements. Qed.

Lemma sorted_set_NoDup (s : gset string) : NoDup (sorted_set s).
Proof. unfold sorted_set. rewrite merge_sort_Permutation. apply NoDup_elements. Qed.

Lemma sorted_set_sorted (s : gset string) : StronglySorted str_le (sorted_set s).
Proof. apply StronglySorted_merge_sort; apply _. Qed.

(** Without repetition, sorted means strictly increasing. *)
Lemma StronglySorted_strict (l : list string) :
  NoDup l → StronglySorted str_le l → StronglySorted String_as_OT.lt l.
Proof.
  induction 2 as [|x l Hl IH Hx]; [constructor|].
  apply NoDup_cons in H as [Hnin Hnd]. constructor; [by apply IH|].
  apply Forall_forall. intros y Hy.
  rewrite Forall_forall in Hx. specialize (Hx y Hy). unfold str_le in Hx.
  destruct (String_as_OT.compare_spec x y) as [->|Hlt|_]; [|done|done].
  exfalso. by apply Hnin.
Qed.

(** The sorted list depends on the set only, not on the order in which the
    set is walked. *)
Lemma sorted_set_unique (s : gset string) (l : list string) :
  l ≡ₚ elements s → merge_sort str_le l = sorted_set s.
Proof.
  intros Hl. apply (Sorted_unique str_le).
  - apply Sorted_merge_sort; apply _.
  - apply Sorted_merge_sort; apply _.
  - unfold sorted_set. by rewrite !merge_sort_Permutation.
Qed.

(** ** The common feature index *)

Section CommonGenes.
Context {F : Type}.
Implicit Types (df : DataFrame F) (frames : list (DataFrame F)).

Lemma intersect_all_elem frames (acc : gset string) (g : string) :
  g ∈ foldl (λ acc df, list_to_set (index df) ∩ acc) acc frames
  ↔ g ∈ acc ∧ ∀ df, df ∈ frames → g ∈ index df.
Proof.
  revert acc. induction frames as [|df frames IH]; intros acc; simpl.
  - split; [intros ?; split; [done|] | by intros [? _]].
    intros df Hdf. by apply elem_of_nil in Hdf.
  - rewrite IH, elem_of_intersection, elem_of_list_to_set. split.
    + intros [[Hg Hacc] Hall]. split; [done|].
      intros df' [->|Hin]%elem_of_cons; auto.
    + intros [Hacc Hall]. split_and!; [apply Hall; by left | done |].
      intros df' Hin. apply Hall. by right.
Qed.

Lemma common_genes_elem frames (g : string) :
  g ∈ common_genes frames ↔ frames ≠ [] ∧ ∀ df, df ∈ frames → g ∈ index df.
Proof.
  destruct frames as [|df0 rest]; simpl.
  - split; [by intros ?%elem_of_nil | by intros [? _]].
  - rewrite sorted_set_elem, intersect_all_elem, elem_of_list_to_set. split.
    + intros [H0 Hrest]. split; [done|].
      intros df [->|Hin]%elem_of_cons; auto.
    + intros [_ Hall]. split; [apply Hall; by left|].
      intros df Hin. apply Hall. by right.
Qed.

Lemma common_genes_NoDup frames : NoDup (common_genes frames).
Proof. destruct frames; simpl; [constructor | apply sorted_set_NoDup]. Qed.

Lemma common_genes_sorted frames :
  StronglySorted String_as_OT.lt (common_genes frames).
Proof.
  apply StronglySorted_strict; [apply common_genes_NoDup|].
  destruct frames; simpl; [constructor | apply sorted_set_sorted].
Qed.
End CommonGenes.

(** ** Running [scale_sets] on the store *)

Section Run.
Context {F : Type} `{Arith F}.
Implicit Types (h : heap F) (l : ref) (frames : list (DataFrame F)).

Lemma bind_ret_run {A B} (a : A) (k : A → Py F B) h : (mret a ≫= k) h = k a h.
Proof. done. Qed.

Lemma bind_assoc_run {A B C} (c : Py F A) (k1 : A → Py F B) (k2 : B → Py F C) h :
  ((c ≫= k1) ≫= k2) h = (c ≫= (λ a, k1 a ≫= k2)) h.
Proof.
  unfold mbind, Py_bind. by destruct (c h) as [[e|a] h'].
Qed.

Lemma bind_len_run {B} line l h xs (k : nat → Py F B) :
  h !! l = Some xs → (list_len line l ≫= k) h = k (length xs) h.
Proof. intros Hl. unfold mbind, Py_bind, list_len. by rewrite Hl. Qed.

Lemma bind_getitem_run {B} line l i h xs v (k : pyval F → Py F B) :
  h !! l = Some xs → xs !! i = Some v → (list_getitem line l i ≫= k) h = k v h.
Proof. intros Hl Hi. unfold mbind, Py_bind, list_getitem. by rewrite Hl, Hi. Qed.

Lemma bind_getitem_fail {B} line l i h xs (k : pyval F → Py F B) :
  h !! l = Some xs → xs !! i = None →
  (list_getitem line l i ≫= k) h = (inl (IndexError line), h).
Proof. intros Hl Hi. unfold mbind, Py_bind, list_getitem. by rewrite Hl, Hi. Qed.

Lemma bind_setitem_run {B} line l i v h xs (k : unit → Py F B) :
  h !! l = Some xs → (i < length xs)%nat →
  (list_setitem line l i v ≫= k) h = k () (<[l := <[i := v]> xs]> h).
Proof.
  intros Hl Hi. unfold mbind, Py_bind, list_setitem. by rewrite Hl, decide_True.
Qed.

Lemma bind_lift_inr {A B} (r : result A) a (k : A → Py F B) h :
  r = inr a → (lift r ≫= k) h = k a h.
Proof. by intros ->. Qed.

Lemma bind_lift_inl {A B} (r : result A) e (k : A → Py F B) h :
  r = inl e → (lift r ≫= k) h = (inl e, h).
Proof. by intros ->. Qed.

Lemma bind_frame_run {B} e df (k : DataFrame F → Py F B) h :
  (as_frame e (VFrame df) ≫= k) h = k df h.
Proof. done. Qed.

Lemma for_each_cons {S} i idx (body : nat → S → Py F S) acc h :
  for_each (i :: idx) body acc h = (body i acc ≫= for_each idx body) h.
Proof. done. Qed.

Lemma bind_run_inr {A B} (c : Py F A) (k : A → Py F B) h a h' :
  c h = (inr a, h') → (c ≫= k) h = k a h'.
Proof. intros Hc. unfold mbind, Py_bind. by rewrite Hc. Qed.

(** Lines 68-69: the loop reads the frames and leaves the store alone. *)
Lemma intersect_loop_run l h frames k a (acc : gset string) :
  h !! l = Some (VFrame <$> frames) → (a + k ≤ length frames)%nat →
  for_each (seq a k) (λ i (common_genes : gset string),
    si ← list_getitem 69 l i;
    dfi ← as_frame (AttributeError 69) si;
    mret (list_to_set (index dfi) ∩ common_genes)) acc h
  = (inr (foldl (λ acc df, list_to_set (index df) ∩ acc) acc (take k (drop a frames))), h).
Proof.
  intros Hl. revert a acc. induction k as [|k IH]; intros a acc Hk.
  - done.
  - destruct (lookup_lt_is_Some_2 frames a) as [df Hdf]; [lia|].
    cbn [seq]. rewrite for_each_cons, bind_assoc_run.
    erewrite bind_getitem_run; [|done|by rewrite list_lookup_fmap, Hdf].
    rewrite bind_assoc_run, bind_frame_run, bind_ret_run.
    rewrite IH by lia.
    by rewrite (drop_S _ _ _ Hdf).
Qed.

(** Lines 73-75: the loop overwrites the frames one after the other. *)
Lemma align_loop_run l cg todo :
  ∀ h done sep_point aligned,
  h !! l = Some (VFrame <$> (done ++ todo)) →
  mapM (λ df, loc 74 df cg) todo = inr aligned →
  for_each (seq (length done) (length todo)) (λ i sep_point,
    si ← list_getitem 74 l i;
    dfi ← as_frame (AttributeError 74) si;
    aligned ← lift (loc 74 dfi cg);
    list_setitem 74 l i (VFrame aligned);;
    si ← list_getitem 75 l i;
    dfi ← as_frame (AttributeError 75) si;
    mret (sep_point ++ [length (columns dfi)])) sep_point h
  = (inr (sep_point ++ map (λ df, length (columns df)) aligned),
     <[l := VFrame <$> (done ++ aligned)]> h).
Proof.
  induction todo as [|df todo IH]; intros h done sep_point aligned Hl Hal.
  - simpl in Hal. injection Hal as <-. rewrite !app_nil_r in *.
    simpl. by rewrite insert_id.
  - simpl in Hal. unfold mbind, result_bind in Hal.
    destruct (loc 74 df cg) as [e|x] eqn:Hx; [done|].
    destruct (mapM (λ df, loc 74 df cg) todo) as [e|al] eqn:Htodo; [done|].
    injection Hal as <-.
    assert (Hlen : (length done < length (VFrame <$> (done ++ df :: todo)))%nat).
    { rewrite length_fmap, length_app. simpl. lia. }
    assert (Hnew : <[length done := VFrame x]> (VFrame <$> (done ++ df :: todo))
                   = VFrame <$> ((done ++ [x]) ++ todo)).
    { rewrite <-list_fmap_insert. f_equal.
      replace (length done) with (length done + 0)%nat at 1 by lia.
      rewrite insert_app_r. simpl. by rewrite <-app_assoc. }
    cbn [length seq]. rewrite for_each_cons, bind_assoc_run.
    erewrite bind_getitem_run; [|done|].
    2:{ rewrite list_lookup_fmap, lookup_app_r, Nat.sub_diag by lia. done. }
    rewrite bind_assoc_run, bind_frame_run, bind_assoc_run.
    erewrite bind_lift_inr by done.
    rewrite bind_assoc_run.
    erewrite bind_setitem_run; [|done|done].
    rewrite Hnew, bind_assoc_run.
    erewrite bind_getitem_run; [|by rewrite lookup_insert_eq|].
    2:{ rewrite list_lookup_fmap, <-app_assoc, lookup_app_r, Nat.sub_diag by lia.
        done. }
    rewrite bind_assoc_run, bind_frame_run, bind_ret_run.
    replace (S (length done)) with (length (done ++ [x]))
      by (rewrite length_app; simpl; lia).
    erewrite IH; [|by rewrite lookup_insert_eq|done].
    rewrite insert_insert_eq. simpl.
    by rewrite <-!app_assoc.
Qed.

(** Line 76: [pd.concat] walks the list. *)
Lemma list_frames_loop_run line l h frames k a acc :
  h !! l = Some (VFrame <$> frames) → (a + k ≤ length frames)%nat →
  for_each (seq a k) (λ i acc,
    v ← list_getitem line l i;
    df ← as_frame (TypeError line) v;
    mret (acc ++ [df])) acc h
  = (inr (acc ++ take k (drop a frames)), h).
Proof.
  intros Hl. revert a acc. induction k as [|k IH]; intros a acc Hk.
  - simpl. by rewrite app_nil_r.
  - destruct (lookup_lt_is_Some_2 frames a) as [df Hdf]; [lia|].
    cbn [seq]. rewrite for_each_cons, bind_assoc_run.
    erewrite bind_getitem_run; [|done|by rewrite list_lookup_fmap, Hdf].
    rewrite bind_assoc_run, bind_frame_run, bind_ret_run.
    rewrite IH by lia.
    by rewrite (drop_S _ _ _ Hdf), <-app_assoc.
Qed.

Lemma list_frames_run line l h frames :
  h !! l = Some (VFrame <$> frames) →
  list_frames line l h = (inr frames, h).
Proof.
  intros Hl. unfold list_frames.
  erewrite bind_len_run by done. rewrite length_fmap.
  unfold for_range. rewrite Nat.sub_0_r.
  rewrite list_frames_loop_run with (frames := frames) by (done || lia).
  by rewrite drop_0, firstn_all.
Qed.

(** Lines 92-93: the loop overwrites every element with its slice. *)
Lemma resplit_loop_run l (g : nat → ndarray F) k :
  ∀ a h xs,
  h !! l = Some xs → (a + k ≤ length xs)%nat →
  for_each (seq a k) (λ i (_ : unit), list_setitem 93 l i (VArray (g i))) () h
  = (inr (), <[l := take a xs ++ (VArray ∘ g <$> seq a k) ++ drop (a + k) xs]> h).
Proof.
  induction k as [|k IH]; intros a h xs Hl Hk.
  - simpl. rewrite Nat.add_0_r, take_drop. by rewrite insert_id.
  - cbn [seq]. rewrite for_each_cons.
    rewrite (bind_setitem_run _ _ _ _ _ xs) by (done || lia).
    erewrite IH; [|by rewrite lookup_insert_eq|by rewrite length_insert; lia].
    rewrite insert_insert_eq. do 2 f_equal.
    destruct (lookup_lt_is_Some_2 xs a) as [x Hx]; [lia|].
    rewrite take_insert_lt, (take_S_r _ _ _ Hx) by lia.
    rewrite drop_insert_lt by lia.
    rewrite insert_app_r_alt by (rewrite length_take; lia).
    rewrite length_take, Nat.min_l, Nat.sub_diag by lia. simpl.
    rewrite <-app_assoc. simpl.
    by replace (a + S k)%nat with (S (a + k)) by lia.
Qed.
End Run.

Section RunScaleSets.
Context {F : Type} `{Arith F}.
Implicit Types (h : heap F) (l : ref) (frames : list (DataFrame F)).

(** An empty list: [sets[0]] raises. *)
Lemma scale_sets_run_nil l h :
  h !! l = Some [] → scale_sets l h = (inl (IndexError 67), h).
Proof.
  intros Hl. unfold scale_sets. by erewrite bind_getitem_fail.
Qed.

(** The run of [scale_sets] on a list of frames, in terms of the stages:
    when a statement after the loop of lines 73-75 raises, the list is
    left holding the aligned frames; otherwise it ends up holding the
    slices, and the reference passed in is returned. *)
Lemma scale_sets_run l h frames aligned :
  h !! l = Some (VFrame <$> frames) → frames ≠ [] →
  aligned_sets frames = inr aligned →
  scale_sets l h =
    match combined aligned ≫= normalize_and_filter with
    | inl e => (inl e, <[l := VFrame <$> aligned]> h)
    | inr total_set =>
        (inr l, <[l := VArray <$> resplit (sep_points aligned) total_set
                                          (length aligned)]> h)
    end.
Proof.
  intros Hl Hne Hal. destruct frames as [|df0 rest]; [done|].
  unfold scale_sets.
  erewrite bind_getitem_run; [|done|done].
  rewrite bind_frame_run.
  erewrite bind_len_run by done.
  erewrite bind_run_inr.
  2:{ unfold for_range. apply intersect_loop_run with (frames := df0 :: rest);
        [done|]. rewrite length_fmap. simpl. lia. }
  rewrite length_fmap. cbn [length drop]. rewrite Nat.sub_succ, Nat.sub_0_r, firstn_all.
  erewrite bind_len_run by done.
  erewrite bind_run_inr.
  2:{ unfold for_range. rewrite length_fmap, Nat.sub_0_r.
      apply (align_loop_run l _ (df0 :: rest) h []); [done|apply Hal]. }
  simpl app.
  erewrite bind_run_inr.
  2:{ apply list_frames_run. by rewrite lookup_insert_eq. }
  assert (Hcomb : combined aligned ≫= normalize_and_filter
                  = pd_concat 76 aligned ≫= λ df, normalize_and_filter (np_array df)).
  { unfold combined. by destruct (pd_concat 76 aligned). }
  rewrite Hcomb. clear Hcomb.
  destruct (pd_concat 76 aligned) as [e|df] eqn:Hcat.
  { by erewrite bind_lift_inl. }
  erewrite bind_lift_inr by done.
  change (inr df ≫= λ df, normalize_and_filter (np_array df))
    with (normalize_and_filter (np_array df)).
  destruct (normalize_and_filter (np_array df)) as [e|total_set] eqn:Htot.
  { by erewrite bind_lift_inl. }
  erewrite bind_lift_inr by done.
  erewrite bind_len_run by (by rewrite lookup_insert_eq).
  rewrite length_fmap.
  erewrite bind_run_inr.
  2:{ unfold for_range. rewrite Nat.sub_0_r.
      apply resplit_loop_run; [by rewrite lookup_insert_eq|].
      rewrite length_fmap. lia. }
  unfold mret, Py_ret.
  rewrite insert_insert_eq. simpl.
  rewrite drop_ge by (rewrite length_fmap; lia).
  rewrite app_nil_r. unfold resplit, sep_points.
  by rewrite <-list_fmap_compose.
Qed.
End RunScaleSets.

(** ** Shapes through the stages *)

Lemma mapM_result_Forall2 {A B} (f : A → result B) (P : A → B → Prop) (l : list A) :
  Forall (λ x, ∃ y, f x = inr y ∧ P x y) l →
  ∃ k, mapM f l = inr k ∧ Forall2 P l k.
Proof.
  induction 1 as [|x l (y & Hy & HP) _ (k & Hk & HPk)]; simpl.
  - by exists [].
  - exists (y :: k). rewrite Hy. simpl. rewrite Hk. simpl. split; [done|].
    by constructor.
Qed.

Lemma compress_Forall {A} (P : A → Prop) (mask : list bool) (l : list A) :
  Forall P l → Forall P (compress mask l).
Proof.
  intros Hl. revert mask. induction Hl as [|x l Hx Hl IH]; intros [|[] mask]; simpl;
    try constructor; auto.
Qed.

Lemma compress_sublist {A} (mask : list bool) (l : list A) :
  sublist (compress mask l) l.
Proof.
  revert mask. induction l as [|x l IH]; intros [|[] mask]; simpl;
    try constructor; auto using sublist_nil_l.
Qed.

(** Indexing with a mask computed row by row is filtering. *)
Lemma compress_map_filter {A} (p : A → bool) (l : list A) :
  compress (map p l) l = List.filter p l.
Proof. induction l as [|x l IH]; simpl; [done|]. by rewrite IH. Qed.

Lemma compress_mask_then {A} (m1 m2 : list bool) (l : list A) :
  compress m2 (compress m1 l) = compress (mask_then m1 m2) l.
Proof.
  revert m2 l. induction m1 as [|b m1 IH]; intros m2 l; simpl.
  - by destruct m2.
  - destruct l as [|x l]; [by destruct b, m2|].
    destruct b; simpl.
    + destruct m2 as [|b2 m2]; simpl.
      * specialize (IH [] l). simpl in IH. by destruct (compress m1 l).
      * by rewrite IH.
    + apply IH.
Qed.

(** The number of rows a mask keeps depends on the mask only. *)
Lemma length_compress_same {A B} (mask : list bool) (l : list A) (k : list B) :
  length l = length k → length (compress mask l) = length (compress mask k).
Proof.
  revert l k. induction mask as [|b mask IH]; intros [|x l] [|y k] Hlen;
    simpl in *; try done.
  destruct b; simpl; rewrite (IH l k); (done || lia).
Qed.

Lemma length_mask_then (m1 m2 : list bool) : length (mask_then m1 m2) = length m1.
Proof.
  revert m2. induction m1 as [|[] m1 IH]; intros m2; simpl; [done| |by rewrite IH].
  destruct m2; simpl; by rewrite IH.
Qed.

Lemma sum_list_take_S (w : list nat) (i x : nat) :
  w !! i = Some x → sum_list (take (S i) w) = (sum_list (take i w) + x)%nat.
Proof.
  intros Hx. rewrite (take_S_r _ _ _ Hx), sum_list_with_app. simpl. lia.
Qed.

Lemma sum_list_take_le (w : list nat) (i : nat) :
  (sum_list (take i w) ≤ sum_list w)%nat.
Proof.
  rewrite <-(take_drop i w) at 2. rewrite sum_list_with_app. lia.
Qed.

Section Shapes.
Context {F : Type} `{Arith F}.
Implicit Types (df al : DataFrame F) (a : ndarray F) (frames : list (DataFrame F)).

(** *** Row alignment, line 74 *)

Lemma filter_label_absent (ks : list string) (vs : list (list F)) (g : string) :
  g ∉ ks → filter (λ kr, kr.1 = g) (zip ks vs) = [].
Proof.
  revert vs. induction ks as [|k ks IH]; intros [|v vs] Hg; simpl; try done.
  apply not_elem_of_cons in Hg as [Hne Hg].
  rewrite filter_cons_False by (simpl; congruence). by apply IH.
Qed.

Lemma filter_label_unique (ks : list string) (vs : list (list F)) (g : string) :
  NoDup ks → length vs = length ks → g ∈ ks →
  ∃ i r, ks !! i = Some g ∧ vs !! i = Some r ∧
         filter (λ kr, kr.1 = g) (zip ks vs) = [(g, r)].
Proof.
  intros Hnd. revert vs. induction Hnd as [|k ks Hnin Hnd IH]; intros vs Hlen Hg.
  - by apply elem_of_nil in Hg.
  - destruct vs as [|v vs]; [done|]. simpl in Hlen.
    destruct (decide (k = g)) as [->|Hne].
    + exists 0%nat, v. split_and!; [done|done|]. simpl.
      rewrite filter_cons_True by done. by rewrite filter_label_absent.
    + apply elem_of_cons in Hg as [->|Hg]; [done|].
      destruct (IH vs) as (i & r & Hi & Hr & Hf); [lia|done|].
      exists (S i), r. split_and!; [done|done|]. simpl.
      by rewrite filter_cons_False by (simpl; congruence).
Qed.

Lemma loc_label_wf line df g :
  wf_frame df → g ∈ index df →
  ∃ r, loc_label line df g = inr [(g, r)] ∧ row_of df g r.
Proof.
  intros (Hnd & Hlen & _) Hg.
  destruct (filter_label_unique (index df) (values df) g) as (i & r & Hi & Hr & Hf);
    [done..|].
  exists r. unfold loc_label. rewrite Hf. split; [done|]. by exists i.
Qed.

Lemma loc_wf line df (labels : list string) :
  wf_frame df → (∀ g, g ∈ labels → g ∈ index df) →
  ∃ al, loc line df labels = inr al ∧ index al = labels ∧
        columns al = columns df ∧ Forall2 (row_of df) labels (values al).
Proof.
  intros Hwf Hsub.
  destruct (mapM_result_Forall2 (loc_label line df)
              (λ g ms, ∃ r, ms = [(g, r)] ∧ row_of df g r) labels)
    as (ms & Hms & Hall).
  { apply Forall_forall. intros g Hg.
    destruct (loc_label_wf line df g) as (r & Hr & Hrow); auto.
    exists [(g, r)]. eauto. }
  eexists. unfold loc. rewrite Hms. simpl. split; [done|]. simpl.
  clear Hms Hsub. induction Hall as [|g m labels ms (r & -> & Hrow) _ (IH1 & _ & IH2)].
  - split_and!; [done|done|constructor].
  - split_and!; [|done|].
    + change ((concat ([(g, r)] :: ms)).*1) with (g :: (concat ms).*1).
      by rewrite IH1.
    + change ((concat ([(g, r)] :: ms)).*2) with (r :: (concat ms).*2).
      by constructor.
Qed.

Lemma aligned_sets_total frames :
  Forall wf_frame frames →
  ∃ aligned, aligned_sets frames = inr aligned ∧
             Forall2 (aligned_to (common_genes frames)) frames aligned.
Proof.
  intros Hwf. apply mapM_result_Forall2.
  apply Forall_forall. intros df Hdf.
  rewrite Forall_forall in Hwf.
  destruct (loc_wf 74 df (common_genes frames)) as (al & Hal & ? & ? & ?); auto.
  - intros g Hg. apply common_genes_elem in Hg as [_ Hg]. by apply Hg.
  - by exists al.
Qed.

Lemma aligned_to_wf cg df al :
  wf_frame df → aligned_to cg df al →
  length (values al) = length cg ∧
  Forall (λ r, length r = length (columns al)) (values al).
Proof.
  intros (_ & _ & Hrows) (Hidx & Hcols & Hall). split.
  - by apply Forall2_length in Hall.
  - rewrite Hcols. clear Hidx. induction Hall as [|g r ? ? (i & _ & Hr) _ IH];
      constructor; [|done].
    rewrite Forall_forall in Hrows. apply Hrows. by eapply list_elem_of_lookup_2.
Qed.

(** *** Concatenation, line 76 *)

Lemma pd_concat_same_index line (aligned : list (DataFrame F)) (cg : list string) :
  aligned ≠ [] → Forall (λ al, index al = cg) aligned →
  pd_concat line aligned
  = inr (mkFrame cg (concat (columns <$> aligned))
                 (hstack (values <$> aligned) (length cg))).
Proof.
  intros Hne Hall. destruct aligned as [|al0 rest]; [done|].
  apply Forall_cons in Hall as [H0 Hrest]. unfold pd_concat.
  assert (forallb (λ df, bool_decide (index df = index al0)) rest = true) as ->.
  { clear Hne. induction Hrest as [|al rest Hal _ IH]; simpl; [done|].
    rewrite bool_decide_true by congruence. apply IH. }
  by rewrite H0.
Qed.

Lemma hstack_shape (blocks : list (list (list F))) (n : nat) (widths : list nat) :
  Forall2 (λ b w, length b = n ∧ Forall (λ r, length r = w) b) blocks widths →
  length (hstack blocks n) = n ∧
  Forall (λ r, length r = sum_list widths) (hstack blocks n).
Proof.
  intros Hall. unfold hstack. split; [by rewrite length_map, length_seq|].
  apply Forall_map, Forall_forall. intros k Hk%elem_of_seq. simpl.
  induction Hall as [|b w blocks widths [Hlen Hb] _ IH]; simpl; [done|].
  rewrite length_app, IH. f_equal.
  destruct (lookup_lt_is_Some_2 b k) as [r Hr]; [lia|].
  rewrite nth_lookup, Hr. simpl.
  rewrite Forall_forall in Hb. apply Hb. by eapply list_elem_of_lookup_2.
Qed.

Lemma length_concat_columns (aligned : list (DataFrame F)) :
  length (concat (columns <$> aligned))
  = sum_list (map (λ df, length (columns df)) aligned).
Proof.
  induction aligned as [|al aligned IH]; [done|].
  rewrite fmap_cons. cbn [concat map]. by rewrite length_app, IH.
Qed.

Lemma aligned_to_index cg frames aligned :
  Forall2 (aligned_to cg) frames aligned → Forall (λ al, index al = cg) aligned.
Proof. induction 1 as [|? ? ? ? (? & _) _ IH]; constructor; auto. Qed.

Lemma aligned_to_blocks cg frames aligned :
  Forall wf_frame frames → Forall2 (aligned_to cg) frames aligned →
  Forall2 (λ b w, length b = length cg ∧ Forall (λ r, length r = w) b)
          (values <$> aligned) (map (λ df, length (columns df)) aligned).
Proof.
  intros Hwf Hal. induction Hal as [|df al frames' aligned' Hdf _ IH]; simpl.
  - constructor.
  - apply Forall_cons in Hwf as [Hwf0 Hwf]. constructor; [|by apply IH].
    by apply (aligned_to_wf _ df al).
Qed.

Lemma aligned_to_columns cg frames aligned :
  Forall2 (aligned_to cg) frames aligned →
  map (λ df, length (columns df)) aligned = map (λ df, length (columns df)) frames.
Proof.
  induction 1 as [|? ? ? ? (_ & Hc & _) _ IH]; simpl; [done|]. by rewrite Hc, IH.
Qed.

(** The combined matrix has one row per common gene and as many columns
    as the inputs have together. *)
Lemma combined_shape cg frames aligned :
  frames ≠ [] → Forall wf_frame frames →
  Forall2 (aligned_to cg) frames aligned →
  ∃ total, combined aligned = inr total ∧
           ncols total = sum_list (map (λ df, length (columns df)) aligned) ∧
           length (rows total) = length cg ∧
           wf_array total.
Proof.
  intros Hne Hwf Hal.
  assert (Hne' : aligned ≠ []).
  { intros ->. apply Forall2_nil_inv_r in Hal. done. }
  unfold combined.
  rewrite (pd_concat_same_index 76 aligned cg Hne' (aligned_to_index _ _ _ Hal)).
  eexists. split; [done|]. unfold np_array, wf_array. simpl.
  rewrite length_concat_columns.
  destruct (hstack_shape (values <$> aligned) (length cg)
              (map (λ df, length (columns df)) aligned)) as [Hlen Hrows];
    [by eapply aligned_to_blocks | by split_and!].
Qed.
End Shapes.

(** ** The numeric stages, lines 77-90 *)

Section Filters.
Context {F : Type} `{Arith F}.
Implicit Types (a : ndarray F) (v r : list F).

Lemma insert_sorted_Permutation (x : F) (l : list F) : insert_sorted x l ≡ₚ x :: l.
Proof.
  induction l as [|y l IH]; simpl; [done|].
  destruct (fle x y); [done|]. rewrite IH. apply Permutation_swap.
Qed.

(** The ranks are ranks of the data: sorting only reorders. *)
Lemma sort_values_Permutation (l : list F) : sort_values l ≡ₚ l.
Proof.
  induction l as [|x l IH]; simpl; [done|].
  by rewrite insert_sorted_Permutation, IH.
Qed.

Lemma np_percentile_nil line q :
  0 ≤ q ≤ 100 → np_percentile line [] q = inl (IndexError line).
Proof.
  intros Hq. unfold np_percentile.
  destruct (Z.ltb_spec q 0), (Z.ltb_spec 100 q); simpl; (done || lia).
Qed.

(** On data, the percentile is the interpolation between the values at
    the two ranks around [(n-1) * q / 100], at the fraction that this
    position leaves. *)
Lemma np_percentile_inr line v q :
  0 ≤ q ≤ 100 → v ≠ [] →
  let h := (Z.of_nat (length v) - 1) * q in
  let lo := Z.to_nat (h / 100) in
  let hi := Nat.min (lo + 1) (length v - 1) in
  ∃ x y, sort_values v !! lo = Some x ∧ sort_values v !! hi = Some y ∧
    np_percentile line v q
    = inr (if existsb fisnan v then fnan else lerp x y (h mod 100) 100).
Proof.
  intros Hq Hv h lo hi. unfold np_percentile.
  destruct (Z.ltb_spec q 0), (Z.ltb_spec 100 q); try lia. simpl.
  fold h lo hi.
  assert (Hn : (0 < length v)%nat) by (destruct v; [done | simpl; lia]).
  assert (Hlo : (lo < length v)%nat).
  { subst lo h. apply Nat2Z.inj_lt. rewrite Z2Nat.id.
    - apply Z.div_lt_upper_bound; nia.
    - apply Z.div_pos; nia. }
  assert (Hhi : (hi < length v)%nat) by (subst hi; lia).
  rewrite <-(Permutation_length (sort_values_Permutation v)) in Hlo, Hhi.
  destruct (lookup_lt_is_Some_2 _ _ Hlo) as [x Hx].
  destruct (lookup_lt_is_Some_2 _ _ Hhi) as [y Hy].
  exists x, y. split_and!; [done|done|].
  destruct v; [done|]. by rewrite !nth_lookup, Hx, Hy.
Qed.

Lemma percentile_mask_inr line v :
  v ≠ [] →
  ∃ p1 p99, np_percentile line v 1 = inr p1 ∧ np_percentile line v 99 = inr p99 ∧
            percentile_mask line v = inr (map (in_band p1 p99) v).
Proof.
  intros Hv.
  destruct (np_percentile_inr line v 1) as (? & ? & _ & _ & H1); [lia|done|].
  destruct (np_percentile_inr line v 99) as (? & ? & _ & _ & H99); [lia|done|].
  eexists _, _. split_and!; [done|done|].
  unfold percentile_mask. by rewrite H1, H99.
Qed.

(** *** Shapes *)

Lemma library_size_normalize_shape a :
  ncols (library_size_normalize a) = ncols a ∧
  length (rows (library_size_normalize a)) = length (rows a) ∧
  (wf_array a → wf_array (library_size_normalize a)).
Proof.
  unfold library_size_normalize, wf_array. simpl. split_and!; [done| |].
  - by rewrite length_map.
  - intros Hwf. apply Forall_map. eapply Forall_impl; [done|]. simpl.
    intros r Hr. rewrite length_map, length_zip_with.
    unfold np_sum_axis0. rewrite length_map, length_seq. lia.
Qed.

Lemma log_transform_shape a :
  ncols (log_transform a) = ncols a ∧
  length (rows (log_transform a)) = length (rows a) ∧
  (wf_array a → wf_array (log_transform a)).
Proof.
  unfold log_transform, wf_array. simpl. split_and!; [done| |].
  - by rewrite length_map.
  - intros Hwf. apply Forall_map. eapply Forall_impl; [done|]. simpl.
    intros r Hr. by rewrite length_map.
Qed.

(** *** The three row filters *)

Lemma expression_filter_nil a :
  rows a = [] → expression_filter a = inl (IndexError 80).
Proof. intros Ha. unfold expression_filter, np_sum_axis1. by rewrite Ha. Qed.

Lemma expression_filter_inr a :
  rows a ≠ [] →
  ∃ p1 p99,
    np_percentile 80 (np_sum_axis1 a) 1 = inr p1 ∧
    np_percentile 80 (np_sum_axis1 a) 99 = inr p99 ∧
    expression_filter a
    = inr (mkArray (ncols a) (compress (map (in_band p1 p99) (np_sum_axis1 a)) (rows a))).
Proof.
  intros Ha.
  destruct (percentile_mask_inr 80 (np_sum_axis1 a)) as (p1 & p99 & H1 & H99 & Hm).
  { unfold np_sum_axis1. by destruct (rows a). }
  exists p1, p99. split_and!; [done|done|].
  unfold expression_filter. by rewrite Hm.
Qed.

Lemma cv_filter_nil a : rows a = [] → cv_filter a = inl (IndexError 90).
Proof. intros Ha. unfold cv_filter, cv_vector. by rewrite Ha. Qed.

Lemma cv_filter_inr a :
  rows a ≠ [] →
  ∃ p1 p99,
    np_percentile 90 (cv_vector a) 1 = inr p1 ∧
    np_percentile 90 (cv_vector a) 99 = inr p99 ∧
    cv_filter a
    = inr (mkArray (ncols a) (compress (map (in_band p1 p99) (cv_vector a)) (rows a))).
Proof.
  intros Ha.
  destruct (percentile_mask_inr 90 (cv_vector a)) as (p1 & p99 & H1 & H99 & Hm).
  { unfold cv_vector. by destruct (rows a). }
  exists p1, p99. split_and!; [done|done|].
  unfold cv_filter. by rewrite Hm.
Qed.

Lemma zero_mean_filter_rows a :
  rows (zero_mean_filter a) = List.filter (λ r, flt fzero (np_mean r)) (rows a).
Proof.
  unfold zero_mean_filter. simpl.
  by rewrite map_map, (compress_map_filter (λ r, flt fzero (np_mean r))).
Qed.

(** Lines 77-90 return exactly when a row reaches line 89, and then keep
    a selection of the rows of the logged matrix, in their order. *)
Lemma normalize_and_filter_inr (total m : ndarray F) :
  before_cv total = inr m → rows m ≠ [] →
  ∃ keep,
    length keep = length (rows total) ∧
    normalize_and_filter total
    = inr (mkArray (ncols total)
             (compress keep (rows (log_transform (library_size_normalize total))))).
Proof.
  unfold before_cv, normalize_and_filter.
  set (logged := log_transform (library_size_normalize total)).
  intros Hm Hrows.
  destruct (decide (rows logged = [])) as [Hnil|Hne].
  { by rewrite (expression_filter_nil _ Hnil) in Hm. }
  destruct (expression_filter_inr logged Hne) as (p1 & p99 & _ & _ & He).
  rewrite He in Hm |- *. simpl in Hm |- *. injection Hm as <-.
  destruct (cv_filter_inr _ Hrows) as (q1 & q99 & _ & _ & Hc).
  rewrite Hc. eexists. split; [|simpl; by rewrite !compress_mask_then].
  rewrite !length_mask_then, length_map. unfold np_sum_axis1.
  rewrite length_map. subst logged.
  destruct (log_transform_shape (library_size_normalize total)) as (_ & -> & _).
  by destruct (library_size_normalize_shape total) as (_ & -> & _).
Qed.

Lemma normalize_and_filter_inl_cv (total m : ndarray F) :
  before_cv total = inr m → rows m = [] →
  normalize_and_filter total = inl (IndexError 90).
Proof.
  unfold before_cv, normalize_and_filter. intros Hm Hrows.
  destruct (expression_filter _) as [e|m1]; [done|].
  simpl in Hm |- *. injection Hm as <-. by apply cv_filter_nil.
Qed.

Lemma normalize_and_filter_inl_expr (total : ndarray F) :
  rows total = [] → normalize_and_filter total = inl (IndexError 80).
Proof.
  intros Hrows. unfold normalize_and_filter.
  rewrite expression_filter_nil; [done|].
  unfold log_transform, library_size_normalize. simpl. by rewrite Hrows.
Qed.
End Filters.

(** ** Re-splitting, lines 92-93 *)

Section Resplit.
Context {F : Type} `{Arith F}.
Implicit Types (a total : ndarray F).

Lemma slice_columns_shape a (lo hi : nat) :
  wf_array a → (lo ≤ hi ≤ ncols a)%nat →
  ncols (slice_columns lo hi a) = (hi - lo)%nat ∧
  wf_array (slice_columns lo hi a) ∧
  length (rows (slice_columns lo hi a)) = length (rows a).
Proof.
  intros Hwf Hle. unfold slice_columns, wf_array. simpl. split_and!.
  - lia.
  - apply Forall_map. eapply Forall_impl; [done|]. simpl.
    intros r Hr. rewrite length_take, length_drop. lia.
  - by rewrite length_map.
Qed.

(** Every slice is as wide as the input it stands for, and all slices
    have the rows of [total]. *)
Lemma resplit_shape (widths : list nat) total :
  wf_array total → ncols total = sum_list widths →
  Forall2 (λ w out, ncols out = w ∧ wf_array out ∧
                    length (rows out) = length (rows total))
          widths (resplit (0%nat :: widths) total (length widths)).
Proof.
  intros Hwf Hcols. apply Forall2_same_length_lookup_2.
  { unfold resplit. by rewrite length_map, length_seq. }
  intros i w out Hw Hout. unfold resplit in Hout.
  rewrite list_lookup_fmap in Hout.
  destruct (seq 0 (length widths) !! i) as [i'|] eqn:Hi; [|done].
  apply lookup_seq in Hi as [-> _]. simpl in Hout. injection Hout as <-.
  rewrite !Nat.add_1_r. replace (i + 2)%nat with (S (S i)) by lia.
  rewrite !firstn_cons.
  change (sum_list (0%nat :: take (S i) widths)) with (sum_list (take (S i) widths)).
  change (sum_list (0%nat :: take i widths)) with (sum_list (take i widths)).
  rewrite (sum_list_take_S _ _ _ Hw).
  pose proof (sum_list_take_le widths (S i)) as Hle.
  rewrite (sum_list_take_S _ _ _ Hw) in Hle.
  destruct (slice_columns_shape total (sum_list (take i widths))
              (sum_list (take i widths) + w)) as (Hc & Hwf' & Hr);
    [done|lia|].
  split_and!; [|done|done]. rewrite Hc. lia.
Qed.
(** The slices cut for a list of frames: slice [i] is as wide as frame [i]. *)
Lemma resplit_frames_shape (frames : list (DataFrame F)) total :
  wf_array total →
  ncols total = sum_list (map (λ df, length (columns df)) frames) →
  Forall2 (λ df out, ncols out = length (columns df) ∧ wf_array out ∧
                     length (rows out) = length (rows total))
          frames (resplit (sep_points frames) total (length frames)).
Proof.
  intros Hwf Hcols. unfold sep_points.
  replace (length frames)
    with (length (map (λ df : DataFrame F, length (columns df)) frames))
    by apply length_map.
  pose proof (resplit_shape (map (λ df : DataFrame F, length (columns df)) frames)
                total Hwf Hcols) as Hshape.
  apply Forall2_fmap_l in Hshape. eapply Forall2_impl; [exact Hshape|]. done.
Qed.
End Resplit.

(** ** The outcomes of [scale_sets] *)

Section Outcomes.
Context {F : Type} `{Arith F}.
Implicit Types (h : heap F) (l : ref) (frames : list (DataFrame F)).

(** Lines 77-90 either raise in the percentile of line 80 (no row at
    all), or in the percentile of line 90 (no row left for the CV), or
    return a selection of the rows of the logged matrix. *)
Lemma normalize_and_filter_cases (total : ndarray F) :
  (rows total = [] ∧ normalize_and_filter total = inl (IndexError 80))
  ∨ (rows total ≠ [] ∧ ∃ m, before_cv total = inr m ∧
      ((rows m = [] ∧ normalize_and_filter total = inl (IndexError 90))
       ∨ (rows m ≠ [] ∧ ∃ keep,
            length keep = length (rows total) ∧
            normalize_and_filter total
            = inr (mkArray (ncols total)
                (compress keep (rows (log_transform (library_size_normalize total)))))))).
Proof.
  destruct (decide (rows total = [])) as [Hnil|Hne].
  { left. split; [done|]. by apply normalize_and_filter_inl_expr. }
  right. split; [done|].
  assert (Hlog : rows (log_transform (library_size_normalize total)) ≠ []).
  { intros Hnil%(f_equal length).
    destruct (log_transform_shape (library_size_normalize total)) as (_ & Hl1 & _).
    destruct (library_size_normalize_shape total) as (_ & Hl2 & _).
    rewrite Hl1, Hl2 in Hnil. by destruct (rows total). }
  destruct (expression_filter_inr _ Hlog) as (p1 & p99 & _ & _ & He).
  eexists. split; [unfold before_cv; by rewrite He|].
  set (m := zero_mean_filter _).
  assert (Hm : before_cv total = inr m) by (unfold before_cv; by rewrite He).
  destruct (decide (rows m = [])) as [Hmnil|Hmne].
  - left. split; [done|]. by eapply normalize_and_filter_inl_cv.
  - right. split; [done|]. by eapply normalize_and_filter_inr.
Qed.

End Outcomes.

Section OutcomeFacts.
Context {F : Type} `{Arith F}.
Implicit Types (h : heap F) (l : ref) (frames : list (DataFrame F)).

(** The whole run on well-formed frames, by cases on where lines 77-90
    stop. *)
Lemma scale_sets_outcomes l h frames :
  h !! l = Some (VFrame <$> frames) → Forall wf_frame frames → frames ≠ [] →
  ∃ aligned total logged,
    aligned_sets frames = inr aligned ∧
    Forall2 (aligned_to (common_genes frames)) frames aligned ∧
    combined aligned = inr total ∧
    ncols total = sum_list (map (λ df, length (columns df)) frames) ∧
    wf_array total ∧
    logged_matrix frames = inr logged ∧
    ncols logged = ncols total ∧
    wf_array logged ∧
    length (rows logged) = length (common_genes frames) ∧
    ((common_genes frames = [] ∧
      scale_sets l h = (inl (IndexError 80), <[l := VFrame <$> aligned]> h))
     ∨ (common_genes frames ≠ [] ∧ rows_reaching_cv frames = [] ∧
        scale_sets l h = (inl (IndexError 90), <[l := VFrame <$> aligned]> h))
     ∨ (common_genes frames ≠ [] ∧ rows_reaching_cv frames ≠ [] ∧
        ∃ keep, length keep = length (common_genes frames) ∧
          scale_sets l h
          = (inr l, <[l := VArray <$>
                resplit (sep_points frames)
                        (mkArray (ncols logged) (compress keep (rows logged)))
                        (length frames)]> h))).
Proof.
  intros Hl Hwf Hne.
  destruct (aligned_sets_total frames Hwf) as (aligned & Hal & Hto).
  destruct (combined_shape _ frames aligned Hne Hwf Hto)
    as (total & Hc & Hncols & Hrows & Hwft).
  set (logged := log_transform (library_size_normalize total)).
  destruct (log_transform_shape (library_size_normalize total)) as (Hc1 & Hr1 & Hw1).
  destruct (library_size_normalize_shape total) as (Hc2 & Hr2 & Hw2).
  assert (Hcols : map (λ df, length (columns df)) aligned
                  = map (λ df, length (columns df)) frames)
    by (by eapply aligned_to_columns).
  assert (Hreach : rows_reaching_cv frames
                   = match before_cv total with inr m => rows m | inl _ => [] end).
  { unfold rows_reaching_cv. rewrite Hal. simpl. by rewrite Hc. }
  exists aligned, total, logged.
  split; [done|]. split; [done|]. split; [done|].
  split; [by rewrite <-Hcols|]. split; [done|].
  split; [unfold logged_matrix; rewrite Hal; simpl; by rewrite Hc|].
  split; [subst logged; by rewrite Hc1, Hc2|].
  split; [subst logged; auto|].
  split; [subst logged; by rewrite Hr1, Hr2|].
  rewrite (scale_sets_run l h frames aligned) by done.
  rewrite Hc. simpl.
  destruct (normalize_and_filter_cases total)
    as [[Hnil ->]|(Hnn & m & Hm & [[Hmnil ->]|(Hmne & keep & Hk & ->)])].
  - left. split; [|done]. rewrite Hnil in Hrows. by destruct (common_genes frames).
  - right. left. split_and!; [|by rewrite Hreach, Hm|done].
    intros Hcg. rewrite Hcg in Hrows. by destruct (rows total).
  - right. right. split_and!; [|by rewrite Hreach, Hm|].
    { intros Hcg. rewrite Hcg in Hrows. by destruct (rows total). }
    exists keep. split; [lia|].
    unfold sep_points. rewrite Hcols.
    rewrite (Forall2_length _ _ _ Hto). by subst logged.
Qed.
End OutcomeFacts.

(** C1 (as amended). On well-formed frames with a common index that is not
    empty, and with at least one row left when line 89 is reached,
    [scale_sets] returns the list it was given, holding as many arrays as
    there were frames; array [i] is well formed and has the column count of
    frame [i]; all arrays are column slices of one matrix, whose rows are
    rows of the logged matrix selected by one mask over the common index,
    so they have the same row count and the same row order. *)
Theorem scale_sets_shapes {F : Type} `{Arith F}
    (l : ref) (h : heap F) (frames : list (DataFrame F)) :
  h !! l = Some (VFrame <$> frames) →
  Forall wf_frame frames →
  frames ≠ [] →
  common_genes frames ≠ [] →
  rows_reaching_cv frames ≠ [] →
  ∃ outs logged keep,
    scale_sets l h = (inr l, <[l := VArray <$> outs]> h) ∧
    length outs = length frames ∧
    Forall2 (λ df out, ncols out = length (columns df) ∧ wf_array out) frames outs ∧
    logged_matrix frames = inr logged ∧
    length (rows logged) = length (common_genes frames) ∧
    length keep = length (common_genes frames) ∧
    outs = resplit (sep_points frames)
                   (mkArray (ncols logged) (compress keep (rows logged)))
                   (length frames) ∧
    Forall (λ out, length (rows out) = length (compress keep (rows logged))) outs.
Proof.
  intros Hl Hwf Hne Hcg Hreach.
  destruct (scale_sets_outcomes l h frames Hl Hwf Hne)
    as (aligned & total & logged & Hal & Hto & Hc & Hncols & Hwft & Hlog & Hlc & Hlw
        & Hlr & [[? _]|[(_ & ? & _)|(_ & _ & keep & Hk & Hrun)]]); [done|done|].
  set (final := mkArray (ncols logged) (compress keep (rows logged))) in *.
  assert (Hshape : Forall2 (λ df out, ncols out = length (columns df) ∧ wf_array out ∧
                                      length (rows out) = length (rows final))
            frames (resplit (sep_points frames) final (length frames))).
  { apply resplit_frames_shape.
    - unfold wf_array, final. simpl. by apply compress_Forall.
    - unfold final. simpl. by rewrite Hlc. }
  exists (resplit (sep_points frames) final (length frames)), logged, keep.
  split; [done|].
  split; [unfold resplit; by rewrite length_map, length_seq|].
  split; [eapply Forall2_impl; [exact Hshape|]; simpl; by intros df out (? & ? & _)|].
  split; [done|]. split; [done|]. split; [done|]. split; [done|].
  eapply Forall2_Forall_r; [exact Hshape|].
  apply Forall_true. by intros df out (_ & _ & ?).
Qed.

(** C2. The common index of [scale_sets] holds exactly the identifiers that
    label a row in every input, in strictly increasing lexicographic order;
    line 74 never raises and re-labels every input with exactly that index,
    in that order, keeping its columns; what the call leaves in the list is
    either these aligned frames (when a later line raises) or, for every
    input, an array with the column count of that input whose rows are a
    selection, in order, of the aligned rows (one mask over the common
    index, the same for all).  For inputs labelled A,B,C,D and B,C,D,E the
    index is B,C,D. *)
Theorem common_index_sorted_intersection {F : Type} `{Arith F}
    (l : ref) (h : heap F) (frames : list (DataFrame F)) :
  h !! l = Some (VFrame <$> frames) →
  Forall wf_frame frames →
  frames ≠ [] →
  (∀ g, g ∈ common_genes frames ↔ ∀ df, df ∈ frames → g ∈ index df) ∧
  StronglySorted String_as_OT.lt (common_genes frames) ∧
  (∃ aligned,
     aligned_sets frames = inr aligned ∧
     Forall2 (aligned_to (common_genes frames)) frames aligned ∧
     ((∃ e, scale_sets l h = (inl e, <[l := VFrame <$> aligned]> h))
      ∨ (∃ logged keep outs,
           logged_matrix frames = inr logged ∧
           length (rows logged) = length (common_genes frames) ∧
           length keep = length (common_genes frames) ∧
           outs = resplit (sep_points frames)
                          (mkArray (ncols logged) (compress keep (rows logged)))
                          (length frames) ∧
           Forall2 (λ df out, ncols out = length (columns df) ∧
                              length (rows out) = length (compress keep (common_genes frames)))
                   frames outs ∧
           scale_sets l h = (inr l, <[l := VArray <$> outs]> h)))) ∧
  (index <$> frames = [["A"; "B"; "C"; "D"]; ["B"; "C"; "D"; "E"]] →
   common_genes frames = ["B"; "C"; "D"]).
Proof.
  intros Hl Hwf Hne. split_and!.
  - intros g. rewrite common_genes_elem. split; [by intros [_ ?]|done].
  - apply common_genes_sorted.
  - destruct (scale_sets_outcomes l h frames Hl Hwf Hne)
      as (aligned & total & logged & Hal & Hto & Hc & Hncols & Hwft & Hlog & Hlc & Hlw
          & Hlr & [[_ Hrun]|[(_ & _ & Hrun)|(_ & _ & keep & Hk & Hrun)]]);
      exists aligned; (split; [done|]); (split; [done|]).
    + left. by eexists.
    + left. by eexists.
    + right. eexists logged, keep, _.
      split; [done|]. split; [done|]. split; [done|]. split; [reflexivity|].
      split; [|done].
      set (final := mkArray (ncols logged) (compress keep (rows logged))).
      assert (Hshape := resplit_frames_shape frames final).
      eapply Forall2_impl; [apply Hshape|].
      * unfold wf_array, final. simpl. by apply compress_Forall.
      * unfold final. simpl. by rewrite Hlc.
      * simpl. intros df out (? & _ & ->). split; [done|].
        apply length_compress_same. lia.
  - intros Hidx. destruct frames as [|f1 [|f2 [|f3 frames]]]; try done.
    injection Hidx as H1 H2. unfold common_genes. simpl. rewrite H1, H2.
    by vm_compute.
Qed.

(** C7 (as amended). [scale_sets] has no check on the common index.  With
    frames that share no identifier it goes on: every frame in the list is
    replaced by its alignment to the empty index (no row, the columns
    kept), the empty matrix is normalized and logged, and the call ends in
    the [IndexError] that [np.percentile] raises on the empty vector of row
    sums at line 80; that exception is raised in no other case, no
    exception comes from lines 67-71, and no list of empty matrices is
    returned. *)
Theorem empty_common_index_fails_in_percentile {F : Type} `{Arith F}
    (l : ref) (h : heap F) (frames : list (DataFrame F)) :
  h !! l = Some (VFrame <$> frames) →
  Forall wf_frame frames →
  frames ≠ [] →
  (common_genes frames = [] ↔ (scale_sets l h).1 = inl (IndexError 80)) ∧
  (common_genes frames = [] →
     ∃ aligned,
       scale_sets l h = (inl (IndexError 80), <[l := VFrame <$> aligned]> h) ∧
       Forall2 (λ df al, index al = [] ∧ values al = [] ∧ columns al = columns df)
               frames aligned) ∧
  ¬ raises_within 67 71 (scale_sets l h).1.
Proof.
  intros Hl Hwf Hne.
  destruct (scale_sets_outcomes l h frames Hl Hwf Hne)
    as (aligned & total & logged & Hal & Hto & Hc & Hncols & Hwft & Hlog & Hlc & Hlw
        & Hlr & Hcases).
  split_and!.
  - destruct Hcases as [[Hcg ->]|[(Hcg & _ & ->)|(Hcg & _ & keep & _ & ->)]];
      simpl; split; done.
  - intros Hcg.
    destruct Hcases as [[_ Hrun]|[(? & _)|(? & _)]]; [|done|done].
    exists aligned. split; [done|]. rewrite Hcg in Hto.
    eapply Forall2_impl; [exact Hto|]. simpl.
    intros df al (Hi & Hcol & Hrows). apply Forall2_nil_inv_l in Hrows. done.
  - intros (e & He & Hline).
    destruct Hcases as [[_ Hrun]|[(_ & _ & Hrun)|(_ & _ & keep & _ & Hrun)]];
      rewrite Hrun in He; simpl in He; simplify_eq; simpl in Hline; lia.
Qed.

(** ** The matrix that lines 92-93 cut up *)

Section Written.
Context {F : Type} `{Arith F}.

(** The filtered matrix has the columns of the combined matrix, and its
    rows are rows of the logged matrix. *)
Lemma normalize_and_filter_shape (total filtered : ndarray F) :
  wf_array total → normalize_and_filter total = inr filtered →
  ncols filtered = ncols total ∧ wf_array filtered ∧
  sublist (rows filtered) (rows (log_transform (library_size_normalize total))).
Proof.
  intros Hwf Hf.
  destruct (normalize_and_filter_cases total)
    as [[_ Hr]|(_ & m & _ & [[_ Hr]|(_ & keep & _ & Hr)])];
    rewrite Hr in Hf; try discriminate.
  injection Hf as <-. simpl. split; [done|]. split.
  - unfold wf_array. simpl. apply compress_Forall.
    destruct (log_transform_shape (library_size_normalize total)) as (Hc & _ & Hw).
    destruct (library_size_normalize_shape total) as (Hc' & _ & Hw').
    rewrite <- Hc', <- Hc. by apply Hw, Hw'.
  - apply compress_sublist.
Qed.

(** The run of [scale_sets] on well-formed frames, with the filtered
    matrix named: lines 92-93 write its column slices into the list. *)
Lemma scale_sets_run_filtered l (h : heap F) frames :
  h !! l = Some (VFrame <$> frames) → Forall wf_frame frames → frames ≠ [] →
  ∃ aligned total,
    aligned_sets frames = inr aligned ∧
    Forall2 (aligned_to (common_genes frames)) frames aligned ∧
    combined aligned = inr total ∧
    wf_array total ∧
    ncols total = sum_list (map (λ df, length (columns df)) frames) ∧
    scale_sets l h =
      match normalize_and_filter total with
      | inl e => (inl e, <[l := VFrame <$> aligned]> h)
      | inr filtered =>
          (inr l, <[l := VArray <$> resplit (sep_points frames) filtered
                                            (length frames)]> h)
      end.
Proof.
  intros Hl Hwf Hne.
  destruct (aligned_sets_total frames Hwf) as (aligned & Hal & Hto).
  destruct (combined_shape (common_genes frames) frames aligned Hne Hwf Hto)
    as (total & Hc & Hncols & _ & Hwft).
  pose proof (aligned_to_columns _ _ _ Hto) as Hcols.
  exists aligned, total.
  split; [done|]. split; [done|]. split; [done|]. split; [done|].
  split; [by rewrite Hncols, Hcols|].
  rewrite (scale_sets_run l h frames aligned Hl Hne Hal), Hc. simpl.
  unfold sep_points. rewrite Hcols.
  by rewrite <- (Forall2_length _ _ _ Hto).
Qed.

(** The [i]-th array written by lines 92-93, without [slice_columns]: the
    columns of the filtered matrix from the first column of frame [i] up
    to its last one. *)
Lemma resplit_lookup (frames : list (DataFrame F)) (filtered : ndarray F) i df :
  wf_array filtered →
  ncols filtered = sum_list (map (λ d, length (columns d)) frames) →
  frames !! i = Some df →
  ∃ out, resplit (sep_points frames) filtered (length frames) !! i = Some out ∧
    ncols out = length (columns df) ∧
    rows out = map (λ r, take (length (columns df))
                          (drop (sum_list (map (λ d, length (columns d)) (take i frames))) r))
                   (rows filtered).
Proof.
  intros Hwf Hn Hi.
  pose proof (resplit_frames_shape frames filtered Hwf Hn) as Hshape.
  destruct (Forall2_lookup_l _ _ _ _ _ Hshape Hi) as (out & Hout & Hnc & _ & _).
  exists out. split; [done|]. split; [done|].
  unfold resplit in Hout. rewrite list_lookup_fmap in Hout.
  rewrite (proj2 (lookup_seq 0 (length frames) i i)) in Hout
    by (split; [done|by eapply lookup_lt_Some]).
  simpl in Hout. injection Hout as <-. unfold slice_columns, sep_points. simpl.
  replace (i + 2)%nat with (S (S i)) by lia.
  replace (i + 1)%nat with (S i) by lia.
  rewrite !firstn_cons.
  change (sum_list (0%nat :: ?w)) with (sum_list w).
  set (w := map (λ d : DataFrame F, length (columns d)) frames).
  assert (Hw : w !! i = Some (length (columns df))).
  { unfold w. by rewrite list_lookup_fmap, Hi. }
  rewrite (sum_list_take_S w i _ Hw).
  replace (sum_list (take i w) + length (columns df) - sum_list (take i w))%nat
    with (length (columns df)) by lia.
  unfold w. by rewrite firstn_map.
Qed.

End Written.

(** C10. [scale_sets] works on the list object it is given.  Nothing else
    in the store changes.  When it returns, it returns the very reference
    it received, and the list holds, in the place of frame [i], the array
    of lines 92-93: the columns of the filtered matrix (the result of lines
    77-90 on the combined aligned frames) that belong to frame [i], from
    the column after the last one of frame [i - 1] on, as many as frame
    [i] has, every row of the filtered matrix cut the same way; the frames
    passed in can no longer be reached through the list.  When a line
    after the loop of lines 73-75 raises, the list is left holding the
    row-aligned frames that the loop has written over the inputs. *)
Theorem scale_sets_in_place {F : Type} `{Arith F}
    (l : ref) (h : heap F) (frames : list (DataFrame F)) :
  h !! l = Some (VFrame <$> frames) →
  Forall wf_frame frames →
  frames ≠ [] →
  (∀ l', l' ≠ l → (scale_sets l h).2 !! l' = h !! l') ∧
  ∃ aligned total,
    aligned_sets frames = inr aligned ∧
    Forall2 (aligned_to (common_genes frames)) frames aligned ∧
    combined aligned = inr total ∧
    ((∃ e, (scale_sets l h).1 = inl e ∧
           normalize_and_filter total = inl e ∧
           (scale_sets l h).2 !! l = Some (VFrame <$> aligned))
     ∨ ((scale_sets l h).1 = inr l ∧
        ∃ outs filtered,
          normalize_and_filter total = inr filtered ∧
          (scale_sets l h).2 !! l = Some (VArray <$> outs) ∧
          length outs = length frames ∧
          outs = resplit (sep_points frames) filtered (length frames) ∧
          ∀ i df, frames !! i = Some df →
            ∃ out, outs !! i = Some out ∧
              ncols out = length (columns df) ∧
              rows out
              = map (λ r, take (length (columns df))
                            (drop (sum_list (map (λ d, length (columns d))
                                                 (take i frames))) r))
                    (rows filtered))).
Proof.
  intros Hl Hwf Hne.
  destruct (scale_sets_run_filtered l h frames Hl Hwf Hne)
    as (aligned & total & Hal & Hto & Hc & Hwft & Hncols & Hrun).
  split.
  - intros l' Hl'. rewrite Hrun.
    destruct (normalize_and_filter total); simpl; by rewrite lookup_insert_ne.
  - exists aligned, total. split; [done|]. split; [done|]. split; [done|].
    rewrite Hrun.
    destruct (normalize_and_filter total) as [e|filtered] eqn:Hf; simpl.
    + left. exists e. split; [done|]. split; [done|]. apply lookup_insert_eq.
    + right. split; [done|].
      destruct (normalize_and_filter_shape total filtered Hwft Hf) as (Hn & Hwff & _).
      exists (resplit (sep_points frames) filtered (length frames)), filtered.
      split; [done|]. split; [apply lookup_insert_eq|].
      split; [unfold resplit; by rewrite length_map, length_seq|].
      split; [done|].
      intros i df Hi. apply resplit_lookup; [done| |done].
      by rewrite Hn.
Qed.

(** C4. On a matrix with at least one row, the expression filter of lines
    79-80 returns, with the columns unchanged, exactly the rows whose sum
    lies in the closed interval from the 1st to the 99th percentile of the
    row sums of the whole matrix, in their order; each percentile is the
    linear interpolation between the sorted row sums at the two ranks
    around [(n-1) * q / 100] (NaN when a row sum is NaN). *)
Theorem expression_filter_band {F : Type} `{Arith F} (a : ndarray F) :
  rows a ≠ [] →
  let expr := np_sum_axis1 a in
  let rank q := Z.to_nat ((Z.of_nat (length expr) - 1) * q / 100) in
  let frac q := ((Z.of_nat (length expr) - 1) * q) mod 100 in
  ∃ p1 p99 x1 y1 x99 y99 a',
    sort_values expr !! rank 1 = Some x1 ∧
    sort_values expr !! Nat.min (rank 1 + 1) (length expr - 1) = Some y1 ∧
    p1 = (if existsb fisnan expr then fnan else lerp x1 y1 (frac 1) 100) ∧
    sort_values expr !! rank 99 = Some x99 ∧
    sort_values expr !! Nat.min (rank 99 + 1) (length expr - 1) = Some y99 ∧
    p99 = (if existsb fisnan expr then fnan else lerp x99 y99 (frac 99) 100) ∧
    np_percentile 80 expr 1 = inr p1 ∧
    np_percentile 80 expr 99 = inr p99 ∧
    expression_filter a = inr a' ∧
    ncols a' = ncols a ∧
    rows a' = List.filter (λ r, fle p1 (np_sum r) && fle (np_sum r) p99) (rows a) ∧
    (∀ r, r ∈ rows a' ↔ r ∈ rows a ∧ fle p1 (np_sum r) = true ∧ fle (np_sum r) p99 = true).
Proof.
  intros Ha expr rank frac.
  assert (Hexpr : expr ≠ []) by (subst expr; unfold np_sum_axis1; by destruct (rows a)).
  destruct (np_percentile_inr 80 expr 1) as (x1 & y1 & Hx1 & Hy1 & H1); [lia|done|].
  destruct (np_percentile_inr 80 expr 99) as (x99 & y99 & Hx99 & Hy99 & H99); [lia|done|].
  eexists _, _, x1, y1, x99, y99, _.
  split; [exact Hx1|]. split; [exact Hy1|]. split; [reflexivity|].
  split; [exact Hx99|]. split; [exact Hy99|]. split; [reflexivity|].
  split; [exact H1|]. split; [exact H99|].
  assert (Hrows : ∀ p q : F, compress (map (in_band p q) expr) (rows a)
                  = List.filter (λ r, in_band p q (np_sum r)) (rows a)).
  { intros p q. subst expr. unfold np_sum_axis1. rewrite map_map.
    apply (compress_map_filter (λ r, in_band p q (np_sum r))). }
  split; [|split; [|split]].
  - unfold expression_filter, percentile_mask. fold expr. rewrite H1, H99. reflexivity.
  - done.
  - simpl. exact (Hrows _ _).
  - intros r. simpl. rewrite (Hrows _ _).
    rewrite list_elem_of_In, filter_In, <-list_elem_of_In.
    unfold in_band. by rewrite andb_true_iff.
Qed.

(** ** The coefficient of variation, lines 84-90 *)

Section CV.
Context {F : Type} `{ArithLaws F}.
Implicit Types (a : ndarray F) (r : list F).

Lemma positive_mean_not_empty r : flt fzero (np_mean r) = true → r ≠ [].
Proof.
  intros Hpos ->. unfold np_mean in Hpos. simpl in Hpos.
  by rewrite zero_div_zero_not_pos in Hpos.
Qed.

(** A row with a mean above zero goes through line 89 without a division
    by zero. *)
Lemma cv_row_checked_positive_mean r :
  flt fzero (np_mean r) = true → cv_row_checked r = Some (cv_row r).
Proof.
  intros Hpos. pose proof (positive_mean_not_empty r Hpos) as Hne.
  unfold cv_row_checked, np_std_checked, np_mean_checked.
  destruct (Nat.eqb_spec (length r) 0) as [Hlen|Hlen].
  { by destruct r. }
  simpl. unfold checked_div. fold (np_mean r).
  by rewrite (flt_zero_neq _ Hpos).
Qed.
End CV.

(** C5. Line 86 keeps exactly the rows of the expression-filtered matrix
    whose mean is above zero, so every row whose mean equals zero is gone
    before line 89; the CV vector of line 89, the one whose percentiles line
    90 takes, has one entry per row that is left and none for a dropped
    row; the CV of a row is the square root of the mean squared deviation
    (the sum divided by the element count N, not N-1) divided by the row
    mean; and carrying out line 89 with every divisor checked meets no
    zero divisor. *)
Theorem zero_mean_rows_dropped_before_cv {F : Type} `{ArithLaws F} (a : ndarray F) :
  let m := zero_mean_filter a in
  ncols m = ncols a ∧
  rows m = List.filter (λ r, flt fzero (np_mean r)) (rows a) ∧
  (∀ r, r ∈ rows a → feq (np_mean r) fzero = true → r ∉ rows m) ∧
  (∀ total, expression_filter (log_transform (library_size_normalize total)) = inr a →
            normalize_and_filter total = cv_filter m) ∧
  cv_vector m = map cv_row (rows m) ∧
  (rows m ≠ [] →
     ∃ p1 p99,
       np_percentile 90 (map cv_row (rows m)) 1 = inr p1 ∧
       np_percentile 90 (map cv_row (rows m)) 99 = inr p99 ∧
       cv_filter m
       = inr (mkArray (ncols a)
                (List.filter (λ r, fle p1 (cv_row r) && fle (cv_row r) p99) (rows m)))) ∧
  (∀ r, r ∈ rows m →
     let n := of_Z (Z.of_nat (length r)) in
     let mean := fdiv (np_sum r) n in
     cv_row r
     = fdiv (fsqrt (fdiv (np_sum (map (λ x, fmul (fsub x mean) (fsub x mean)) r)) n))
            mean) ∧
  (∀ r, r ∈ rows m → cv_row_checked r = Some (cv_row r)).
Proof.
  intros m.
  assert (Hrows : rows m = List.filter (λ r, flt fzero (np_mean r)) (rows a))
    by apply zero_mean_filter_rows.
  assert (Hpos : ∀ r, r ∈ rows m → flt fzero (np_mean r) = true).
  { intros r. rewrite Hrows, list_elem_of_In, filter_In. by intros [_ ?]. }
  split_and!.
  - done.
  - done.
  - intros r _ Hzero Hin. apply Hpos in Hin.
    apply flt_zero_neq in Hin. congruence.
  - intros total He. unfold normalize_and_filter. by rewrite He.
  - done.
  - intros Hne. destruct (cv_filter_inr m Hne) as (p1 & p99 & H1 & H99 & Hc).
    exists p1, p99. split_and!; [done|done|]. rewrite Hc. f_equal. f_equal.
    unfold cv_vector. rewrite map_map.
    apply (compress_map_filter (λ r, in_band p1 p99 (cv_row r))).
  - done.
  - intros r Hin. by apply cv_row_checked_positive_mean, Hpos.
Qed.

(** ** Library-size normalization, line 77 *)

Section Columns.
Context {F : Type} `{Arith F}.
Implicit Types (a : ndarray F).

Lemma column_map (f : F → F) a (j : nat) :
  wf_array a → (j < ncols a)%nat →
  column j (mkArray (ncols a) (map (map f) (rows a))) = map f (column j a).
Proof.
  intros Hwf Hj. unfold column. simpl. rewrite !map_map.
  apply map_ext_Forall. eapply Forall_impl; [exact Hwf|]. simpl.
  intros r Hr.
  destruct (lookup_lt_is_Some_2 r j) as [x Hx]; [lia|].
  by rewrite !nth_lookup, list_lookup_fmap, Hx.
Qed.

(** Column [j] of the normalized matrix is computed from column [j] of
    the input alone: every entry is divided by the sum of that column
    and multiplied by 20000. *)
Lemma library_size_normalize_column a (j : nat) :
  wf_array a → (j < ncols a)%nat →
  column j (library_size_normalize a)
  = map (λ x, fmul (fdiv x (np_sum (column j a))) (of_Z 20000)) (column j a).
Proof.
  intros Hwf Hj. unfold column, library_size_normalize. simpl. rewrite !map_map.
  apply map_ext_Forall. eapply Forall_impl; [exact Hwf|]. simpl.
  intros r Hr.
  destruct (lookup_lt_is_Some_2 r j) as [x Hx]; [lia|].
  rewrite !nth_lookup, list_lookup_fmap, lookup_zip_with, Hx. simpl.
  unfold np_sum_axis0. rewrite list_lookup_fmap.
  assert (seq 0 (ncols a) !! j = Some j) as ->.
  { apply lookup_seq. split; [done | lia]. }
  done.
Qed.

Lemma log_transform_column a (j : nat) :
  wf_array a → (j < ncols a)%nat →
  column j (log_transform a) = map (λ x, flog2 (fadd x (of_Z 1))) (column j a).
Proof. apply column_map. Qed.
End Columns.

(** ** A zero column sum in binary32 *)

Module Binary32Facts.
Import Binary32.
Implicit Types (x y : float32) (r v : list float32).

#[global] Instance laws : ArithLaws float32.
Proof.
  split.
  - intros x. by destruct x as [[]|[]| |[] ? ?].
  - done.
Qed.

Lemma feq_zero x : feq x fzero = true → ∃ s, x = S754_zero s.
Proof. destruct x as [s|[]| |[] ? ?]; try done. by exists s. Qed.

Lemma div_by_zero x s :
  fdiv x (S754_zero s) = S754_nan ∨ ∃ s', fdiv x (S754_zero s) = S754_infinity s'.
Proof. destruct x as [?|?| |? ? ?]; simpl; eauto. Qed.

(** Line 77 then line 78 on an entry of a column that sums to zero. *)
Lemma logged_entry_of_zero_column x s :
  nan_or_inf (flog2 (fadd (fmul (fdiv x (S754_zero s)) (of_Z 20000)) (of_Z 1))).
Proof.
  destruct (div_by_zero x s) as [->|[s' ->]].
  - by left.
  - destruct s'; [by left | by right].
Qed.

Lemma fadd_nan_or_inf_l x y : nan_or_inf x → nan_or_inf (fadd x y).
Proof.
  intros [->| ->]; [by left|].
  destruct y as [?|[]| |? ? ?]; simpl; (by left) || (by right).
Qed.

Lemma fadd_nan_or_inf_r x y : nan_or_inf y → nan_or_inf (fadd x y).
Proof.
  intros [->| ->].
  - left. by destruct x.
  - destruct x as [?|[]| |? ? ?]; simpl; (by left) || (by right).
Qed.

Lemma fold_fadd_nan_or_inf_acc r x :
  nan_or_inf x → nan_or_inf (fold_left fadd r x).
Proof.
  revert x. induction r as [|y r IH]; intros x Hx; simpl; [done|].
  by apply IH, fadd_nan_or_inf_l.
Qed.

Lemma fold_fadd_nan_or_inf r x :
  Exists nan_or_inf r → nan_or_inf (fold_left fadd r x).
Proof.
  intros Hr. revert x. induction Hr as [y r Hy|y r _ IH]; intros x; simpl.
  - by apply fold_fadd_nan_or_inf_acc, fadd_nan_or_inf_r.
  - apply IH.
Qed.

(** A row that holds a NaN or a +Inf sums to NaN or +Inf. *)
Lemma np_sum_nan_or_inf r : Exists nan_or_inf r → nan_or_inf (np_sum r).
Proof.
  intros Hr. destruct r as [|x r]; [by apply Exists_nil in Hr|].
  apply Exists_cons in Hr as [Hx|Hr]; simpl.
  - by apply fold_fadd_nan_or_inf_acc.
  - by apply fold_fadd_nan_or_inf.
Qed.

Lemma lerp_inf (num den : Z) :
  lerp (S754_infinity false) (S754_infinity false) num den = S754_nan.
Proof.
  unfold lerp. destruct (den <=? 2 * num); simpl.
  - by destruct (SFsub prec emax (of_int 1) (SFdiv prec emax (of_int num) (of_int den))).
  - by destruct (SFdiv prec emax (of_int num) (of_int den)).
Qed.

(** Every percentile of a vector of NaN and +Inf entries is NaN. *)
Lemma np_percentile_nan_or_inf line v q p :
  Forall nan_or_inf v → np_percentile line v q = inr p → p = S754_nan.
Proof.
  intros Hv Hp.
  destruct (decide (0 ≤ q ≤ 100)) as [Hq|Hq].
  2:{ unfold np_percentile in Hp.
      destruct (Z.ltb_spec q 0), (Z.ltb_spec 100 q); simpl in Hp; (done || lia). }
  destruct (decide (v = [])) as [->|Hne].
  { by rewrite np_percentile_nil in Hp. }
  destruct (np_percentile_inr line v q Hq Hne) as (x & y & Hx & Hy & Hrun).
  rewrite Hrun in Hp. clear Hrun.
  destruct (existsb fisnan v) eqn:Hnan; injection Hp as <-; [reflexivity|].
  assert (Hinf : ∀ z, z ∈ v → z = S754_infinity false).
  { intros z Hz. rewrite Forall_forall in Hv. destruct (Hv z Hz) as [->| ->]; [|done].
    assert (existsb fisnan v = true); [|congruence].
    apply existsb_exists. exists S754_nan. split; [by apply list_elem_of_In|done]. }
  assert (x = S754_infinity false) as ->.
  { apply Hinf. rewrite <-(sort_values_Permutation v). by eapply list_elem_of_lookup_2. }
  assert (y = S754_infinity false) as ->.
  { apply Hinf. rewrite <-(sort_values_Permutation v). by eapply list_elem_of_lookup_2. }
  apply lerp_inf.
Qed.

Lemma compress_all_false {A} (f : float32 → bool) (v : list float32) (l : list A) :
  (∀ x, f x = false) → compress (map f v) l = [].
Proof.
  intros Hf. revert l. induction v as [|x v IH]; intros [|y l]; simpl; try done.
  by rewrite Hf.
Qed.

(** When every row sum is NaN or +Inf, the expression filter keeps no
    row. *)
Lemma expression_filter_nan_or_inf (a a' : ndarray float32) :
  Forall (λ r, nan_or_inf (np_sum r)) (rows a) →
  expression_filter a = inr a' → rows a' = [].
Proof.
  intros Hrows. unfold expression_filter, percentile_mask.
  destruct (np_percentile 80 (np_sum_axis1 a) 1) as [e|p1] eqn:H1; [done|].
  destruct (np_percentile 80 (np_sum_axis1 a) 99) as [e|p99] eqn:H99; [done|].
  simpl. intros [= <-]. simpl.
  apply np_percentile_nan_or_inf in H1 as ->.
  - by apply compress_all_false.
  - unfold np_sum_axis1. by apply Forall_map.
Qed.

(** A column that sums to zero makes every row sum of the logged matrix
    NaN or +Inf. *)
Lemma zero_column_row_sums (total : ndarray float32) (j : nat) :
  wf_array total → (j < ncols total)%nat →
  feq (np_sum (column j total)) fzero = true →
  Forall (λ r, nan_or_inf (np_sum r))
         (rows (log_transform (library_size_normalize total))).
Proof.
  intros Hwf Hj (s & Hs)%feq_zero.
  destruct (library_size_normalize_shape total) as (Hc & _ & Hw).
  specialize (Hw Hwf).
  destruct (log_transform_shape (library_size_normalize total)) as (Hc' & _ & Hw').
  specialize (Hw' Hw).
  assert (Hcol : Forall nan_or_inf
            (column j (log_transform (library_size_normalize total)))).
  { rewrite log_transform_column by (auto; by rewrite Hc).
    rewrite library_size_normalize_column by done. rewrite Hs, map_map.
    apply Forall_map, Forall_true. intros x. apply logged_entry_of_zero_column. }
  unfold column in Hcol. rewrite Forall_map in Hcol.
  unfold wf_array in Hw'.
  rewrite Forall_forall in Hcol, Hw'. apply Forall_forall. intros r Hr.
  apply np_sum_nan_or_inf, Exists_exists.
  exists (nth j r fzero). split; [|by apply Hcol].
  destruct (lookup_lt_is_Some_2 r j) as [x Hx]; [rewrite (Hw' r Hr); lia|].
  rewrite nth_lookup, Hx. by eapply list_elem_of_lookup_2.
Qed.

(** *** Line 77 on a column whose sum is infinite or NaN *)










End Binary32Facts.


(** C6 (as amended). [scale_sets] does not look at the column sums.  In
    binary32, when a column of the combined matrix sums to zero, line 77
    divides by that zero without raising, every row sum of the logged
    matrix becomes NaN or +Inf, the percentiles of line 80 are NaN, no row
    passes the expression filter, and the call ends in the [IndexError]
    that [np.percentile] raises on the empty CV vector at line 90, with
    the list left holding the aligned frames: no NaN or Inf reaches an
    output, and no exception comes from line 77. *)
Theorem zero_column_sum_fails_in_cv_percentile
    (l : ref) (h : heap Binary32.float32) (frames aligned : list (DataFrame Binary32.float32))
    (total : ndarray Binary32.float32) (j : nat) :
  h !! l = Some (VFrame <$> frames) →
  Forall wf_frame frames →
  frames ≠ [] →
  common_genes frames ≠ [] →
  aligned_sets frames = inr aligned →
  combined aligned = inr total →
  (j < ncols total)%nat →
  feq (nth j (np_sum_axis0 total) fzero) fzero = true →
  scale_sets l h = (inl (IndexError 90), <[l := VFrame <$> aligned]> h) ∧
  Forall (λ r, Binary32.nan_or_inf (np_sum r))
         (rows (log_transform (library_size_normalize total))) ∧
  ¬ raises_within 77 77 (scale_sets l h).1.
Proof.
  intros Hl Hwf Hne Hcg Hal Hc Hj Hzero.
  destruct (scale_sets_outcomes l h frames Hl Hwf Hne)
    as (aligned' & total' & logged & Hal' & Hto & Hc' & Hncols & Hwft & Hlog & Hlc & Hlw
        & Hlr & Hcases).
  rewrite Hal in Hal'. injection Hal' as <-.
  rewrite Hc in Hc'. injection Hc' as <-.
  assert (Hsums : Forall (λ r, Binary32.nan_or_inf (np_sum r))
                    (rows (log_transform (library_size_normalize total)))).
  { apply (Binary32Facts.zero_column_row_sums total j); [done|done|].
    unfold np_sum_axis0 in Hzero. rewrite nth_lookup, list_lookup_fmap in Hzero.
    assert (seq 0 (ncols total) !! j = Some j) as Hseq.
    { apply lookup_seq. split; [done | lia]. }
    by rewrite Hseq in Hzero. }
  assert (Hreach : rows_reaching_cv frames = []).
  { unfold rows_reaching_cv. rewrite Hal. simpl. rewrite Hc. simpl.
    unfold before_cv.
    destruct (expression_filter _) as [e|m1] eqn:He; [done|].
    change (rows (zero_mean_filter m1) = []).
    rewrite zero_mean_filter_rows.
    by rewrite (Binary32Facts.expression_filter_nan_or_inf _ _ Hsums He). }
  destruct Hcases as [[? _]|[(_ & _ & Hrun)|(_ & ? & _)]]; [done| |done].
  split_and!; [done|done|].
  rewrite Hrun. intros (e & [= <-] & Hline). simpl in Hline. lia.
Qed.

(** ** The statements on sample inputs *)

(** C1 on [uniform_sets]: three rows reach line 89 and the call returns. *)
Lemma scale_sets_shapes_witness :
  let frames := Examples.uniform_sets in
  let h := Examples.store_of frames in
  h !! Examples.sets_ref = Some (VFrame <$> frames) ∧
  Forall wf_frame frames ∧
  frames ≠ [] ∧
  common_genes frames ≠ [] ∧
  rows_reaching_cv frames ≠ [] ∧
  ∃ outs logged keep,
    scale_sets Examples.sets_ref h = (inr Examples.sets_ref, <[Examples.sets_ref := VArray <$> outs]> h) ∧
    length outs = length frames ∧
    Forall2 (λ df out, ncols out = length (columns df) ∧ wf_array out) frames outs ∧
    logged_matrix frames = inr logged ∧
    length (rows logged) = length (common_genes frames) ∧
    length keep = length (common_genes frames) ∧
    outs = resplit (sep_points frames)
                   (mkArray (ncols logged) (compress keep (rows logged)))
                   (length frames) ∧
    Forall (λ out, length (rows out) = length (compress keep (rows logged))) outs.
Proof.
  intros frames h.
  assert (H1 : h !! Examples.sets_ref = Some (VFrame <$> frames)) by reflexivity.
  assert (H2 : Forall wf_frame frames) by compute_done.
  assert (H3 : frames ≠ []) by discriminate.
  assert (H4 : common_genes frames ≠ []) by (vm_compute; discriminate).
  assert (H5 : rows_reaching_cv frames ≠ []) by (vm_compute; discriminate).
  split_and!; try assumption.
  exact (scale_sets_shapes Examples.sets_ref h frames H1 H2 H3 H4 H5).
Defined.

(** C1 as first stated fails on [two_gene_sets]: two well-formed frames with
    the common index A, B; the two row sums differ, so neither lies between
    the 1st and the 99th percentile, no row is left, and [np.percentile]
    raises at line 90 instead of a result being returned. *)
Lemma scale_sets_shapes_counterexample :
  let frames := Examples.two_gene_sets in
  let h := Examples.store_of frames in
  h !! Examples.sets_ref = Some (VFrame <$> frames) ∧
  Forall wf_frame frames ∧
  (2 ≤ length frames)%nat ∧
  common_genes frames = ["A"; "B"] ∧
  (scale_sets Examples.sets_ref h).1 = inl (IndexError 90) ∧
  ¬ ∃ r, (scale_sets Examples.sets_ref h).1 = inr r.
Proof.
  intros frames h.
  assert (Hrun : (scale_sets Examples.sets_ref h).1 = inl (IndexError 90))
    by (vm_compute; reflexivity).
  split_and!.
  - reflexivity.
  - compute_done.
  - simpl. lia.
  - vm_compute; reflexivity.
  - exact Hrun.
  - intros [r Hr]. rewrite Hrun in Hr. discriminate.
Qed.

(** C2 on [uniform_sets], which are labelled A,B,C,D and B,C,D,E. *)
Lemma common_index_sorted_intersection_witness :
  let frames := Examples.uniform_sets in
  let h := Examples.store_of frames in
  h !! Examples.sets_ref = Some (VFrame <$> frames) ∧
  Forall wf_frame frames ∧
  frames ≠ [] ∧
  index <$> frames = [["A"; "B"; "C"; "D"]; ["B"; "C"; "D"; "E"]] ∧
  common_genes frames = ["B"; "C"; "D"] ∧
  StronglySorted String_as_OT.lt (common_genes frames).
Proof.
  intros frames h.
  assert (H1 : h !! Examples.sets_ref = Some (VFrame <$> frames)) by reflexivity.
  assert (H2 : Forall wf_frame frames) by compute_done.
  assert (H3 : frames ≠ []) by discriminate.
  assert (H4 : index <$> frames = [["A"; "B"; "C"; "D"]; ["B"; "C"; "D"; "E"]])
    by reflexivity.
  destruct (common_index_sorted_intersection Examples.sets_ref h frames H1 H2 H3)
    as (_ & Hsorted & _ & Hscenario).
  split_and!; try assumption. exact (Hscenario H4).
Defined.



(** C4 on [small_matrix]. *)
Lemma expression_filter_band_witness :
  let a := Examples.small_matrix in
  rows a ≠ [] ∧
  ∃ p1 p99 a',
    np_percentile 80 (np_sum_axis1 a) 1 = inr p1 ∧
    np_percentile 80 (np_sum_axis1 a) 99 = inr p99 ∧
    expression_filter a = inr a' ∧
    rows a' = List.filter (λ r, fle p1 (np_sum r) && fle (np_sum r) p99) (rows a).
Proof.
  intros a.
  assert (H1 : rows a ≠ []) by discriminate.
  split; [assumption|].
  destruct (expression_filter_band a H1)
    as (p1 & p99 & _ & _ & _ & _ & a' & _ & _ & _ & _ & _ & _ & Hp1 & Hp99 & Hf & _ & Hrows & _).
  exists p1, p99, a'. split_and!; assumption.
Defined.

(** C5 in binary32 on [small_matrix]: the row of zeros is dropped, the two
    other rows go through line 89 without a zero divisor. *)
Lemma zero_mean_rows_dropped_before_cv_witness :
  let a := Examples.small_matrix in
  ArithLaws Binary32.float32 ∧
  rows (zero_mean_filter a)
  = [[Binary32.of_int 1; Binary32.of_int 2]; [Binary32.of_int 5; Binary32.of_int 6]] ∧
  ∀ r, r ∈ rows (zero_mean_filter a) → cv_row_checked r = Some (cv_row r).
Proof.
  intros a.
  assert (H1 : ArithLaws Binary32.float32) by exact Binary32Facts.laws.
  split; [assumption|]. split; [vm_compute; reflexivity|].
  destruct (@zero_mean_rows_dropped_before_cv _ _ H1 a)
    as (_ & _ & _ & _ & _ & _ & _ & Hchecked).
  exact Hchecked.
Defined.

(** C6 on [zero_column_sets], whose second column sums to zero. *)
Lemma zero_column_sum_witness :
  let frames := Examples.zero_column_sets in
  let h := Examples.store_of frames in
  h !! Examples.sets_ref = Some (VFrame <$> frames) ∧
  Forall wf_frame frames ∧
  frames ≠ [] ∧
  common_genes frames ≠ [] ∧
  aligned_sets frames = inr frames ∧
  combined frames = inr Examples.zero_column_total ∧
  (1 < ncols Examples.zero_column_total)%nat ∧
  feq (nth 1 (np_sum_axis0 Examples.zero_column_total) fzero) fzero = true ∧
  scale_sets Examples.sets_ref h
  = (inl (IndexError 90), <[Examples.sets_ref := VFrame <$> frames]> h).
Proof.
  intros frames h.
  assert (H1 : h !! Examples.sets_ref = Some (VFrame <$> frames)) by reflexivity.
  assert (H2 : Forall wf_frame frames) by compute_done.
  assert (H3 : frames ≠ []) by discriminate.
  assert (H4 : common_genes frames ≠ []) by (vm_compute; discriminate).
  assert (H5 : aligned_sets frames = inr frames) by (vm_compute; reflexivity).
  assert (H6 : combined frames = inr Examples.zero_column_total)
    by (vm_compute; reflexivity).
  assert (H7 : (1 < ncols Examples.zero_column_total)%nat) by (simpl; lia).
  assert (H8 : feq (nth 1 (np_sum_axis0 Examples.zero_column_total) fzero) fzero = true)
    by (vm_compute; reflexivity).
  split_and!; try assumption.
  exact (proj1 (zero_column_sum_fails_in_cv_percentile Examples.sets_ref h frames frames
                  Examples.zero_column_total 1 H1 H2 H3 H4 H5 H6 H7 H8)).
Defined.

(** C6 as first stated fails on [zero_column_sets]: the second column of
    the combined matrix sums to zero, and the exception that comes out is
    the [IndexError] of line 90, not one of line 77. *)
Lemma zero_column_sum_counterexample :
  let frames := Examples.zero_column_sets in
  let h := Examples.store_of frames in
  h !! Examples.sets_ref = Some (VFrame <$> frames) ∧
  Forall wf_frame frames ∧
  combined frames = inr Examples.zero_column_total ∧
  np_sum (column 1 Examples.zero_column_total) = fzero ∧
  (scale_sets Examples.sets_ref h).1 = inl (IndexError 90) ∧
  ¬ raises_within 77 77 (scale_sets Examples.sets_ref h).1.
Proof.
  intros frames h.
  assert (Hrun : (scale_sets Examples.sets_ref h).1 = inl (IndexError 90))
    by (vm_compute; reflexivity).
  split_and!.
  - reflexivity.
  - compute_done.
  - vm_compute; reflexivity.
  - vm_compute; reflexivity.
  - exact Hrun.
  - rewrite Hrun. intros (e & [= <-] & Hline). simpl in Hline. lia.
Qed.

(** C7 on [disjoint_sets]. *)
Lemma empty_common_index_witness :
  let frames := Examples.disjoint_sets in
  let h := Examples.store_of frames in
  h !! Examples.sets_ref = Some (VFrame <$> frames) ∧
  Forall wf_frame frames ∧
  frames ≠ [] ∧
  common_genes frames = [] ∧
  (scale_sets Examples.sets_ref h).1 = inl (IndexError 80).
Proof.
  intros frames h.
  assert (H1 : h !! Examples.sets_ref = Some (VFrame <$> frames)) by reflexivity.
  assert (H2 : Forall wf_frame frames) by compute_done.
  assert (H3 : frames ≠ []) by discriminate.
  assert (H4 : common_genes frames = []) by (vm_compute; reflexivity).
  split_and!; try assumption.
  exact (proj1 (proj1 (empty_common_index_fails_in_percentile Examples.sets_ref h frames
                         H1 H2 H3)) H4).
Defined.

(** C7 as first stated fails on [disjoint_sets]: the common index is
    empty, and the exception that comes out is the [IndexError] of line 80,
    not one of lines 67-71. *)
Lemma empty_common_index_counterexample :
  let frames := Examples.disjoint_sets in
  let h := Examples.store_of frames in
  h !! Examples.sets_ref = Some (VFrame <$> frames) ∧
  Forall wf_frame frames ∧
  common_genes frames = [] ∧
  (scale_sets Examples.sets_ref h).1 = inl (IndexError 80) ∧
  ¬ raises_within 67 71 (scale_sets Examples.sets_ref h).1.
Proof.
  intros frames h.
  assert (Hrun : (scale_sets Examples.sets_ref h).1 = inl (IndexError 80))
    by (vm_compute; reflexivity).
  split_and!.
  - reflexivity.
  - compute_done.
  - vm_compute; reflexivity.
  - exact Hrun.
  - rewrite Hrun. intros (e & [= <-] & Hline). simpl in Hline. lia.
Qed.

(** C8 with the set walked by [last_occurrences]: the test labels are
    encoded, and a label outside the training labels raises. *)
Lemma convert_type2label_spec_witness :
  let set_iter := Examples.last_occurrences in
  (∀ l, NoDup (set_iter l)) ∧
  (∀ l x, x ∈ set_iter l ↔ x ∈ l) ∧
  convert_type2label Examples.test_labels (type2label_dict set_iter Examples.train_labels)
  = inr [0%nat; 1%nat] ∧
  ((∃ e, convert_type2label ["T cell"; "Neuron"]
           (type2label_dict set_iter Examples.train_labels) = inl e)
   ↔ ∃ t, t ∈ ["T cell"; "Neuron"] ∧ t ∉ Examples.train_labels).
Proof.
  intros set_iter.
  assert (H1 : ∀ l, NoDup (set_iter l)) by (intros l; apply NoDup_remove_dups).
  assert (H2 : ∀ l x, x ∈ set_iter l ↔ x ∈ l) by (intros l x; apply elem_of_remove_dups).
  split_and!; try assumption.
  - vm_compute; reflexivity.
  - exact (proj2 (proj2 (proj2
      (convert_type2label_spec set_iter H1 H2 ["T cell"; "Neuron"]
         (type2label_dict set_iter Examples.train_labels) Examples.train_labels)))).
Defined.

(** C9 with the set walked by [last_occurrences]. *)
Lemma label_codec_inverse_witness :
  let set_iter := Examples.last_occurrences in
  let type_to_label := type2label_dict set_iter Examples.train_labels in
  (∀ l, NoDup (set_iter l)) ∧
  (∀ l x, x ∈ set_iter l ↔ x ∈ l) ∧
  type_to_label = [("B cell", 0%nat); ("T cell", 1%nat); ("NK cell", 2%nat)] ∧
  num_classes type_to_label = length (remove_dups Examples.train_labels) ∧
  ∀ s c, dict_lookup type_to_label s = Some c
         ↔ dict_lookup (label_to_type_dict type_to_label) c = Some s.
Proof.
  intros set_iter type_to_label.
  assert (H1 : ∀ l, NoDup (set_iter l)) by (intros l; apply NoDup_remove_dups).
  assert (H2 : ∀ l x, x ∈ set_iter l ↔ x ∈ l) by (intros l x; apply elem_of_remove_dups).
  destruct (label_codec_inverse set_iter H1 H2 Examples.train_labels)
    as (_ & Hinv & _ & Hnum).
  split_and!; try assumption. vm_compute; reflexivity.
Defined.

(** C10 on [uniform_sets]. *)
Lemma scale_sets_in_place_witness :
  let frames := Examples.uniform_sets in
  let h := Examples.store_of frames in
  h !! Examples.sets_ref = Some (VFrame <$> frames) ∧
  Forall wf_frame frames ∧
  frames ≠ [] ∧
  (scale_sets Examples.sets_ref h).1 = inr Examples.sets_ref ∧
  ∀ l', l' ≠ Examples.sets_ref → (scale_sets Examples.sets_ref h).2 !! l' = h !! l'.
Proof.
  intros frames h.
  assert (H1 : h !! Examples.sets_ref = Some (VFrame <$> frames)) by reflexivity.
  assert (H2 : Forall wf_frame frames) by compute_done.
  assert (H3 : frames ≠ []) by discriminate.
  split_and!; try assumption.
  - vm_compute; reflexivity.
  - exact (proj1 (scale_sets_in_place Examples.sets_ref h frames H1 H2 H3)).
Defined.

(** * Further properties: the body of [CSV_IO] *)

Section DedupFacts.
Context {A : Type}.

Lemma dedup_mask_length seen (l : list string) :
  length (duplicated_from seen l) = length l.
Proof. revert seen. induction l as [|x l IH]; intros seen; simpl; [done|]. by rewrite IH. Qed.

Lemma dedup_keeps_elem seen (l : list string) g :
  g ∈ compress (map negb (duplicated_from seen l)) l ↔ g ∈ l ∧ g ∉ seen.
Proof.
  revert seen. induction l as [|x l IH]; intros seen; simpl.
  - split; [by intros ?%elem_of_nil | by intros [?%elem_of_nil _]].
  - case_bool_decide as Hx; simpl.
    + split.
      * intros [Hg Hs]%IH. apply not_elem_of_cons in Hs as [Hne Hs].
        split; [by right|done].
      * intros [[->|Hg]%elem_of_cons Hs]; [done|]. apply IH. split; [done|].
        apply not_elem_of_cons. split; [|done]. by intros ->.
    + split.
      * intros [->|[Hg Hs]%IH]%elem_of_cons; [split; [by left|done]|].
        apply not_elem_of_cons in Hs as [Hne Hs]. split; [by right|done].
      * intros [[->|Hg]%elem_of_cons Hs]; [by left|].
        destruct (decide (g = x)) as [->|Hne]; [by left|]. right.
        apply IH. split; [done|]. by apply not_elem_of_cons.
Qed.

Lemma dedup_keeps_NoDup seen (l : list string) :
  NoDup (compress (map negb (duplicated_from seen l)) l).
Proof.
  revert seen. induction l as [|x l IH]; intros seen; simpl.
  - constructor.
  - case_bool_decide as Hx; simpl; [apply IH|].
    constructor; [|apply IH].
    intros Hin. apply (dedup_keeps_elem (x :: seen) l x) in Hin.
    destruct Hin as [_ Hin]. apply Hin. by left.
Qed.

Lemma dedup_first_occurrence seen (l : list string) (vs : list A) k g r :
  length vs = length l →
  compress (map negb (duplicated_from seen l)) l !! k = Some g →
  compress (map negb (duplicated_from seen l)) vs !! k = Some r →
  ∃ i, l !! i = Some g ∧ vs !! i = Some r ∧ (g ∉ seen) ∧
       (∀ j, (j < i)%nat → l !! j ≠ Some g).
Proof.
  revert seen vs k. induction l as [|x l IH]; intros seen vs k Hlen Hg Hr.
  - simpl in Hg. by rewrite lookup_nil in Hg.
  - destruct vs as [|v vs]; [done|]. simpl in Hlen.
    simpl in Hg, Hr.
    case_bool_decide as Hx; simpl in Hg, Hr.
    + destruct (IH (x :: seen) vs k (ltac:(lia)) Hg Hr) as (i & Hi & Hv & Hs & Hfirst).
      apply not_elem_of_cons in Hs as [Hne Hs].
      exists (S i). split; [done|]. split; [done|]. split; [done|].
      intros [|j] Hj; simpl; [congruence|]. apply Hfirst. lia.
    + destruct k as [|k]; simpl in Hg, Hr.
      * injection Hg as <-. injection Hr as <-.
        exists 0%nat. split; [done|]. split; [done|]. split; [done|]. lia.
      * destruct (IH (x :: seen) vs k (ltac:(lia)) Hg Hr) as (i & Hi & Hv & Hs & Hfirst).
        apply not_elem_of_cons in Hs as [Hne Hs].
        exists (S i). split; [done|]. split; [done|]. split; [done|].
        intros [|j] Hj; simpl; [congruence|]. apply Hfirst. lia.
Qed.

Lemma dedup_mask_NoDup seen (l : list string) :
  NoDup l → (∀ x, x ∈ l → x ∉ seen) →
  map negb (duplicated_from seen l) = map (λ _, true) l.
Proof.
  revert seen. induction l as [|x l IH]; intros seen Hnd Hs; simpl; [done|].
  apply NoDup_cons in Hnd as [Hx Hnd].
  rewrite bool_decide_eq_false_2 by (apply Hs; by left). simpl. f_equal.
  apply IH; [done|]. intros y Hy. apply not_elem_of_cons. split.
  - by intros ->.
  - apply Hs. by right.
Qed.

Lemma compress_all_true {B} (l : list B) (vs : list A) :
  length vs = length l → compress (map (λ _, true) l) vs = vs.
Proof.
  revert vs. induction l as [|x l IH]; intros [|v vs] Hlen; try done.
  simpl. f_equal. apply IH. simpl in Hlen. lia.
Qed.

End DedupFacts.

Section UpperDedup.
Context {F : Type}.
Variable str_upper : string → string.

Lemma upper_dedup_wf_frame (df : DataFrame F) :
  rectangular df → wf_frame (upper_dedup str_upper df).
Proof.
  intros [Hlen Hrows]. split; [|split]; simpl.
  - apply dedup_keeps_NoDup.
  - apply length_compress_same. by rewrite length_map.
  - by apply compress_Forall.
Qed.

End UpperDedup.

(** X1. Lines 121-122 and 130-131 establish what [scale_sets] needs: whatever
    the row labels of the frame read from disk (repeated, or equal only up
    to case), after upper-casing and [~index.duplicated(keep='first')] the
    labels are pairwise distinct, every label left is the upper-cased form
    of a label of the input and every such form is left, and the frame is
    still rectangular with its columns unchanged. *)
Theorem upper_dedup_wf {F : Type} (str_upper : string → string) (df : DataFrame F) :
  rectangular df →
  wf_frame (upper_dedup str_upper df) ∧
  columns (upper_dedup str_upper df) = columns df ∧
  ∀ g, g ∈ index (upper_dedup str_upper df) ↔ ∃ s, s ∈ index df ∧ g = str_upper s.
Proof.
  intros Hrect. split; [|split].
  - by apply upper_dedup_wf_frame.
  - done.
  - intros g. simpl. unfold duplicated. rewrite dedup_keeps_elem, list_elem_of_fmap.
    split.
    + intros [(s & -> & Hs) _]. eauto.
    + intros (s & Hs & ->). split; [eauto|]. apply not_elem_of_nil.
Qed.

(** X2. [keep='first']: the k-th row left by lines 121-122 is the first row
    of the input whose upper-cased label is the k-th label left; a later
    row with the same upper-cased label is dropped, values included. *)
Theorem upper_dedup_keeps_first {F : Type} (str_upper : string → string)
    (df : DataFrame F) (k : nat) (g : string) (r : list F) :
  rectangular df →
  index (upper_dedup str_upper df) !! k = Some g →
  values (upper_dedup str_upper df) !! k = Some r →
  ∃ i s, index df !! i = Some s ∧ str_upper s = g ∧ values df !! i = Some r ∧
    ∀ j s', (j < i)%nat → index df !! j = Some s' → str_upper s' ≠ g.
Proof.
  intros [Hlen _] Hg Hr. simpl in Hg, Hr. unfold duplicated in Hg, Hr.
  destruct (dedup_first_occurrence [] (map str_upper (index df)) (values df) k g r)
    as (i & Hi & Hv & _ & Hfirst); [by rewrite length_map|done|done|].
  rewrite list_lookup_fmap in Hi.
  destruct (index df !! i) as [s|] eqn:Hs; [|done]. injection Hi as Hi.
  exists i, s. split; [done|]. split; [done|]. split; [done|].
  intros j s' Hj Hs' Heq. apply (Hfirst j Hj).
  by rewrite list_lookup_fmap, Hs', <- Heq.
Qed.

(** X3. When the upper-cased row labels are already pairwise distinct,
    lines 121-122 drop no row: only the labels change. *)
Theorem upper_dedup_no_clash {F : Type} (str_upper : string → string) (df : DataFrame F) :
  rectangular df → NoDup (map str_upper (index df)) →
  upper_dedup str_upper df
    = mkFrame (map str_upper (index df)) (columns df) (values df).
Proof.
  intros [Hlen _] Hnd. unfold upper_dedup, duplicated.
  rewrite dedup_mask_NoDup; [|done|intros; apply not_elem_of_nil].
  rewrite !compress_all_true; [done| |done].
  by rewrite length_map.
Qed.

(** * Further properties of [scale_sets] *)

(** X4. The common index of line 70 does not depend on the order in which
    the frames are listed: permuting the inputs of [scale_sets] gives the
    same sorted list of common genes (and the same for every iteration
    order of the Python set, since the list is sorted). *)
Theorem common_genes_permutation {F : Type} `{Arith F} (frames frames' : list (DataFrame F)) :
  frames ≡ₚ frames' → common_genes frames = common_genes frames'.
Proof.
  intros Hp.
  assert (Hmem : ∀ g, g ∈ common_genes frames ↔ g ∈ common_genes frames').
  { intros g. rewrite !common_genes_elem. split.
    - intros [Hne Hall]. split.
      + intros ->. by apply Permutation_nil_r in Hp.
      + intros df Hdf. apply Hall. by rewrite Hp.
    - intros [Hne Hall]. split.
      + intros ->. by apply Permutation_nil_l in Hp.
      + intros df Hdf. apply Hall. by rewrite <- Hp. }
  destruct frames as [|a r], frames' as [|b r'].
  - done.
  - by apply Permutation_nil_l in Hp.
  - by apply Permutation_nil_r in Hp.
  - unfold common_genes. f_equal. apply set_eq. intros g.
    rewrite <- !sorted_set_elem. apply Hmem.
Qed.

(** X5. What line 67 rejects: on the empty list [sets[0]] raises IndexError,
    and on a list whose first element is an array (not a frame)
    [sets[0].index] raises AttributeError; in both cases nothing has been
    computed and the list is left as it was. *)
Theorem scale_sets_rejects_at_entry {F : Type} `{Arith F}
    (l : ref) (h : heap F) (xs : list (pyval F)) :
  h !! l = Some xs →
  (xs = [] → scale_sets l h = (inl (IndexError 67), h)) ∧
  (∀ a rest, xs = VArray a :: rest → scale_sets l h = (inl (AttributeError 67), h)).
Proof.
  intros Hl. split.
  - intros ->. unfold scale_sets. by erewrite bind_getitem_fail.
  - intros a rest ->. unfold scale_sets.
    erewrite bind_getitem_run; [|done|reflexivity]. done.
Qed.

(** X6. [scale_sets] cannot be applied twice to the same list: after a call
    that returned, the elements are arrays, so a second call raises
    AttributeError at line 67 ([sets[0].index]) and leaves the outputs of the
    first call in place. *)
Theorem scale_sets_twice {F : Type} `{Arith F}
    (l : ref) (h h' : heap F) (frames : list (DataFrame F)) :
  h !! l = Some (VFrame <$> frames) → Forall wf_frame frames → frames ≠ [] →
  scale_sets l h = (inr l, h') →
  scale_sets l h' = (inl (AttributeError 67), h').
Proof.
  intros Hl Hwf Hne Hrun.
  destruct (scale_sets_outcomes l h frames Hl Hwf Hne)
    as (aligned & total & logged & _ & _ & _ & _ & _ & _ & _ & _ & _ & Hcases).
  destruct Hcases as [[_ Hr]|[(_ & _ & Hr)|(_ & _ & keep & _ & Hr)]];
    rewrite Hr in Hrun; try discriminate.
  injection Hrun as <-.
  destruct frames as [|df0 rest]; [done|].
  unfold scale_sets.
  erewrite bind_getitem_run; [|apply lookup_insert_eq|reflexivity].
  done.
Qed.

Lemma rows_reaching_cv_needs_index {F : Type} `{Arith F}
    (l : ref) (h : heap F) (frames : list (DataFrame F)) :
  h !! l = Some (VFrame <$> frames) → Forall wf_frame frames → frames ≠ [] →
  common_genes frames = [] → rows_reaching_cv frames = [].
Proof.
  intros Hl Hwf Hne Hcg.
  destruct (scale_sets_outcomes l h frames Hl Hwf Hne)
    as (aligned & total & logged & Hal & _ & Hc & _ & _ & Hlog & _ & _ & Hlr & _).
  unfold rows_reaching_cv, before_cv. rewrite Hal. simpl. rewrite Hc. simpl.
  unfold logged_matrix in Hlog. rewrite Hal in Hlog. simpl in Hlog.
  rewrite Hc in Hlog. simpl in Hlog. injection Hlog as Hlog. rewrite Hlog.
  rewrite expression_filter_nil; [done|].
  apply length_zero_iff_nil. by rewrite Hlr, Hcg.
Qed.

(** X7. The outcomes of [scale_sets] on a non-empty list of well-formed
    frames, completely: it returns exactly when some row reaches the CV
    step of line 89; it raises IndexError at line 80 exactly when the common
    index is empty, and IndexError at line 90 exactly when the common index
    is not empty but no row reaches line 89; it raises nothing else (no
    KeyError from [.loc], no error from [pd.concat]). *)
Theorem scale_sets_outcome_cases {F : Type} `{Arith F}
    (l : ref) (h : heap F) (frames : list (DataFrame F)) :
  h !! l = Some (VFrame <$> frames) → Forall wf_frame frames → frames ≠ [] →
  ((scale_sets l h).1 = inr l ↔ rows_reaching_cv frames ≠ []) ∧
  ((scale_sets l h).1 = inl (IndexError 80) ↔ common_genes frames = []) ∧
  ((scale_sets l h).1 = inl (IndexError 90)
     ↔ common_genes frames ≠ [] ∧ rows_reaching_cv frames = []) ∧
  (∀ l', (scale_sets l h).1 = inr l' → l' = l) ∧
  (∀ e, (scale_sets l h).1 = inl e → e = IndexError 80 ∨ e = IndexError 90).
Proof.
  intros Hl Hwf Hne.
  destruct (scale_sets_outcomes l h frames Hl Hwf Hne)
    as (aligned & total & logged & Hal & _ & Hc & _ & _ & Hlog & _ & _ & Hlr & Hcases).
  destruct Hcases as [[Hcg Hr]|[(Hcg & Hrows & Hr)|(Hcg & Hrows & keep & _ & Hr)]];
    rewrite Hr; simpl.
  - assert (Hrows : rows_reaching_cv frames = [])
      by (by eapply rows_reaching_cv_needs_index).
    split; [split; [discriminate|done]|].
    split; [done|].
    split; [split; [discriminate|by intros [? _]]|].
    split; [discriminate|]. intros e [= <-]. by left.
  - split; [split; [discriminate|done]|].
    split; [split; [discriminate|done]|].
    split; [split; [done|intros _; done]|].
    split; [discriminate|]. intros e [= <-]. by right.
  - split; [done|].
    split; [split; [discriminate|done]|].
    split; [split; [discriminate|by intros [_ ?]]|].
    split; [by intros l' [= <-]|]. discriminate.
Qed.

(** ** The column slices of lines 92-93 *)

Lemma slices_concat {A} (w : list nat) (r : list A) :
  concat (map (λ i, take (sum_list (take (i + 2) (0%nat :: w))
                          - sum_list (take (i + 1) (0%nat :: w)))
                         (drop (sum_list (take (i + 1) (0%nat :: w))) r))
              (seq 0 (length w)))
  = take (sum_list w) r.
Proof.
  induction w as [|x w IH] using rev_ind; [by rewrite take_0|].
  rewrite length_app, Nat.add_comm. simpl length. rewrite seq_S, map_app, concat_app.
  simpl. rewrite app_nil_r.
  rewrite sum_list_with_app. simpl. rewrite Nat.add_0_r, <- (take_take_drop r (sum_list w) x).
  f_equal.
  - etrans; [|apply IH]. f_equal. apply map_ext_in. intros i Hi%in_seq.
    replace (i + 2)%nat with (S (i + 1)) by lia.
    replace (i + 1)%nat with (S i) by lia.
    rewrite !firstn_cons.
    rewrite !(take_app_le w) by lia. done.
  - replace (length w + 2)%nat with (S (S (length w))) by lia.
    replace (length w + 1)%nat with (S (length w)) by lia.
    rewrite !firstn_cons.
    rewrite take_app_length.
    rewrite (take_ge (w ++ [x])) by (rewrite length_app; simpl; lia).
    change (sum_list (0%nat :: w ++ [x])) with (sum_list (w ++ [x])).
    change (sum_list (0%nat :: w)) with (sum_list w).
    rewrite sum_list_with_app. simpl.
    replace (sum_list w + (x + 0) - sum_list w)%nat with x by lia. done.
Qed.

Section Rejoin.
Context {F : Type} `{Arith F}.

Lemma resplit_rejoin (w : list nat) (total : ndarray F) :
  wf_array total → ncols total = sum_list w →
  hstack (rows <$> resplit (0%nat :: w) total (length w)) (length (rows total))
  = rows total.
Proof.
  intros Hwf Hn. unfold hstack, resplit.
  apply list_eq. intros k.
  rewrite list_lookup_fmap.
  destruct (rows total !! k) as [r|] eqn:Hr.
  - rewrite (proj2 (lookup_seq 0 (length (rows total)) k k));
      [|split; [done|by eapply lookup_lt_Some]].
    simpl. f_equal.
    rewrite !map_map.
    assert (Hlen : length r = sum_list w).
    { rewrite <- Hn. eapply (Forall_lookup_1 _ _ _ _ Hwf Hr). }
    transitivity (take (sum_list w) r); [|apply take_ge; lia].
    rewrite <- slices_concat. f_equal. apply map_ext. intros i. simpl.
    rewrite nth_lookup, list_lookup_fmap, Hr. done.
  - apply lookup_ge_None in Hr.
    rewrite (proj2 (lookup_ge_None _ _)); [done|]. by rewrite length_seq.
Qed.

End Rejoin.

(** X8. The re-split of lines 92-93 loses nothing: when [scale_sets]
    returns, the arrays it has put in the list are the column slices of
    the filtered matrix (the result of lines 77-90 on the combined aligned
    frames, whose rows are rows of the logged matrix); set side by side in
    list order they are exactly that matrix, row for row, and their column
    counts add up to its column count: no column is lost, repeated or
    moved from one output to another. *)
Theorem scale_sets_outputs_rejoin {F : Type} `{Arith F}
    (l : ref) (h h' : heap F) (frames : list (DataFrame F)) :
  h !! l = Some (VFrame <$> frames) → Forall wf_frame frames → frames ≠ [] →
  scale_sets l h = (inr l, h') →
  ∃ outs aligned total filtered logged,
    h' !! l = Some (VArray <$> outs) ∧ length outs = length frames ∧
    aligned_sets frames = inr aligned ∧
    combined aligned = inr total ∧
    normalize_and_filter total = inr filtered ∧
    logged_matrix frames = inr logged ∧
    sublist (rows filtered) (rows logged) ∧
    outs = resplit (sep_points frames) filtered (length frames) ∧
    hstack (rows <$> outs) (length (rows filtered)) = rows filtered ∧
    sum_list (ncols <$> outs) = ncols filtered.
Proof.
  intros Hl Hwf Hne Hrun.
  destruct (scale_sets_run_filtered l h frames Hl Hwf Hne)
    as (aligned & total & Hal & Hto & Hc & Hwft & Hncols & Hrun').
  rewrite Hrun in Hrun'.
  destruct (normalize_and_filter total) as [e|filtered] eqn:Hf; [discriminate|].
  injection Hrun' as ->.
  destruct (normalize_and_filter_shape total filtered Hwft Hf) as (Hn & Hwff & Hsub).
  exists (resplit (sep_points frames) filtered (length frames)), aligned, total,
         filtered, (log_transform (library_size_normalize total)).
  split; [apply lookup_insert_eq|].
  split; [unfold resplit; by rewrite length_map, length_seq|].
  split; [done|]. split; [done|]. split; [done|].
  split; [unfold logged_matrix; rewrite Hal; simpl; by rewrite Hc|].
  split; [done|]. split; [done|].
  set (w := map (λ df : DataFrame F, length (columns df)) frames).
  assert (Hlen : length frames = length w) by (unfold w; by rewrite length_map).
  split.
  - unfold sep_points. fold w. rewrite Hlen.
    apply resplit_rejoin; [done|]. by rewrite Hn.
  - pose proof (resplit_frames_shape frames filtered Hwff) as Hshape.
    rewrite Hn in Hshape. specialize (Hshape Hncols).
    rewrite Hn, Hncols. fold w.
    assert (Hw : ncols <$> resplit (sep_points frames) filtered (length frames) = w).
    { unfold w. clear -Hshape.
      induction Hshape as [|df out fs outs (Hnc & _) _ IH]; [done|].
      simpl. f_equal; [exact Hnc|exact IH]. }
    by rewrite Hw.
Qed.

Lemma filter_filter {A} (p q : A → bool) (l : list A) :
  List.filter q (List.filter p l) = List.filter (λ x, p x && q x) l.
Proof.
  induction l as [|x l IH]; simpl; [done|].
  destruct (p x); simpl; [|done]. destruct (q x); by rewrite IH.
Qed.

(** X9. What lines 79-90 let through, as one test: when the filtering
    returns, its rows are exactly the rows of the logged matrix whose sum
    lies within the percentiles (1, 99) of all row sums, whose mean is
    greater than zero, and whose CV lies within the percentiles (1, 99) of
    the CVs of the rows that passed the first two tests; they come in the
    order of the logged matrix and the column count is unchanged.  In
    particular no row with a zero mean is ever returned. *)
Theorem normalize_and_filter_rows {F : Type} `{Arith F} (total out : ndarray F) :
  normalize_and_filter total = inr out →
  ∃ p1 p99 q1 q99 m,
    let logged := log_transform (library_size_normalize total) in
    np_percentile 80 (np_sum_axis1 logged) 1 = inr p1 ∧
    np_percentile 80 (np_sum_axis1 logged) 99 = inr p99 ∧
    before_cv total = inr m ∧
    np_percentile 90 (cv_vector m) 1 = inr q1 ∧
    np_percentile 90 (cv_vector m) 99 = inr q99 ∧
    ncols out = ncols total ∧
    rows out = List.filter (λ r, in_band p1 p99 (np_sum r) && flt fzero (np_mean r)
                                 && in_band q1 q99 (cv_row r)) (rows logged) ∧
    Forall (λ r, flt fzero (np_mean r) = true) (rows out).
Proof.
  unfold normalize_and_filter.
  set (logged := log_transform (library_size_normalize total)).
  intros Hout.
  destruct (decide (rows logged = [])) as [Hnil|Hne].
  { by rewrite (expression_filter_nil _ Hnil) in Hout. }
  destruct (expression_filter_inr logged Hne) as (p1 & p99 & Hp1 & Hp99 & He).
  set (e1 := mkArray (ncols logged)
               (compress (map (in_band p1 p99) (np_sum_axis1 logged)) (rows logged))) in *.
  rewrite He in Hout.
  change (cv_filter (zero_mean_filter e1) = inr out) in Hout.
  set (m := zero_mean_filter e1) in *.
  assert (Hm : before_cv total = inr m).
  { unfold before_cv. fold logged. by rewrite He. }
  destruct (decide (rows m = [])) as [Hmnil|Hmne].
  { by rewrite (cv_filter_nil _ Hmnil) in Hout. }
  destruct (cv_filter_inr m Hmne) as (q1 & q99 & Hq1 & Hq99 & Hc).
  rewrite Hc in Hout. injection Hout as <-.
  exists p1, p99, q1, q99, m. cbv zeta. fold logged. cbn [rows ncols].
  assert (Hrows : compress (map (in_band q1 q99) (cv_vector m)) (rows m)
    = List.filter (λ r, in_band p1 p99 (np_sum r) && flt fzero (np_mean r)
                        && in_band q1 q99 (cv_row r)) (rows logged)).
  { unfold cv_vector. rewrite map_map.
    rewrite (compress_map_filter (λ r, in_band q1 q99 (cv_row r))).
    subst m. rewrite zero_mean_filter_rows. subst e1. cbn [rows].
    unfold np_sum_axis1. rewrite map_map.
    rewrite (compress_map_filter (λ r, in_band p1 p99 (np_sum r))).
    rewrite !filter_filter. apply filter_ext. intros r. by rewrite andb_assoc. }
  split; [done|]. split; [done|]. split; [done|]. split; [done|]. split; [done|].
  split; [done|].
  split; [exact Hrows|].
  change (Forall (λ r, flt fzero (np_mean r) = true)
            (compress (map (in_band q1 q99) (cv_vector m)) (rows m))).
  rewrite Hrows. apply Forall_forall. intros r Hr.
  apply list_elem_of_In, filter_In in Hr as [_ Hr].
  apply andb_true_iff in Hr as [Hr _]. by apply andb_true_iff in Hr as [_ Hr].
Qed.

(** * Further properties of the label codec *)

Lemma convert_known_labels
    (set_iter : list string → list string)
    (set_iter_NoDup : ∀ l, NoDup (set_iter l))
    (set_iter_elem : ∀ l x, x ∈ set_iter l ↔ x ∈ l)
    (train types : list string) :
  (∀ t, t ∈ types → t ∈ train) →
  ∃ codes,
    convert_type2label types (type2label_dict set_iter train) = inr codes ∧
    Forall2 (λ t c, dict_lookup (type2label_dict set_iter train) t = Some c) types codes.
Proof.
  intros Hsub. set (d := type2label_dict set_iter train).
  assert (Hcodes : ∃ codes, Forall2 (λ t c, dict_lookup d t = Some c) types codes).
  { induction types as [|t types IH]; [by exists []|].
    destruct IH as [cs Hcs]; [intros t' Ht'; apply Hsub; by right|].
    destruct (dict_lookup d t) as [c|] eqn:Hc.
    - exists (c :: cs). by constructor.
    - apply (type2label_lookup_None set_iter set_iter_NoDup set_iter_elem) in Hc.
      exfalso. apply Hc, Hsub. by left. }
  destruct Hcodes as [codes Hcodes]. exists codes.
  split; [apply convert_loop_inr; by exists codes|done].
Qed.

Lemma convert_unknown_label
    (set_iter : list string → list string)
    (set_iter_NoDup : ∀ l, NoDup (set_iter l))
    (set_iter_elem : ∀ l x, x ∈ set_iter l ↔ x ∈ l)
    (train types : list string) (t : string) :
  t ∈ types → t ∉ train →
  ∃ t', t' ∈ types ∧ (t' ∉ train) ∧
    convert_type2label types (type2label_dict set_iter train) = inl (KeyError 52 t').
Proof.
  intros Ht Hnt. set (d := type2label_dict set_iter train).
  destruct (convert_type2label types d) as [e|codes] eqn:Hconv.
  - apply convert_loop_inl in Hconv as (pre & t' & post & -> & -> & Hnone & _).
    exists t'. split; [|split; [|done]].
    + apply elem_of_app. right. by left.
    + by apply (type2label_lookup_None set_iter set_iter_NoDup set_iter_elem).
  - apply convert_loop_inr in Hconv as (cs & _ & Hcs). exfalso.
    apply list_elem_of_lookup in Ht as [i Hi].
    destruct (Forall2_lookup_l _ _ _ _ _ Hcs Hi) as (c & _ & Hc).
    apply (type2label_lookup_None set_iter set_iter_NoDup set_iter_elem) in Hnt.
    fold d in Hnt. congruence.
Qed.

Lemma num_classes_distinct
    (set_iter : list string → list string)
    (set_iter_NoDup : ∀ l, NoDup (set_iter l))
    (set_iter_elem : ∀ l x, x ∈ set_iter l ↔ x ∈ l)
    (train : list string) :
  num_classes (type2label_dict set_iter train) = length (remove_dups train).
Proof.
  unfold num_classes. rewrite (type2label_dict_zip set_iter set_iter_NoDup).
  rewrite length_zip_with, length_seq, Nat.min_id.
  apply Permutation_length, NoDup_Permutation; [done|apply NoDup_remove_dups|].
  intros x. by rewrite set_iter_elem, elem_of_remove_dups.
Qed.

(** X10. Encoding and decoding a sequence (lines 147-153): every sequence
    of labels that all occur among the training labels (the training
    sequence itself, for one) is encoded without an exception, label by
    label; the codes are as many as the labels, each is below the number of
    classes, and looking each code up in the swapped dictionary of line 148
    gives the sequence back. *)
Theorem encode_decode_labels
    (set_iter : list string → list string)
    (set_iter_NoDup : ∀ l, NoDup (set_iter l))
    (set_iter_elem : ∀ l x, x ∈ set_iter l ↔ x ∈ l)
    (train types : list string) :
  (∀ t, t ∈ types → t ∈ train) →
  let d := type2label_dict set_iter train in
  ∃ codes,
    convert_type2label types d = inr codes ∧
    length codes = length types ∧
    Forall (λ c, (c < num_classes d)%nat) codes ∧
    Forall2 (λ c t, dict_lookup (label_to_type_dict d) c = Some t) codes types.
Proof.
  intros Hsub d.
  destruct (convert_known_labels set_iter set_iter_NoDup set_iter_elem train types Hsub)
    as (codes & Hconv & Hcodes).
  fold d in Hconv, Hcodes. exists codes.
  split; [done|].
  split; [symmetry; by eapply Forall2_length|].
  assert (Hnum : num_classes d = length (set_iter train)).
  { unfold num_classes, d.
    rewrite (type2label_dict_zip set_iter set_iter_NoDup).
    rewrite length_zip_with, length_seq. lia. }
  clear Hsub Hconv. split.
  - induction Hcodes as [|t c ts cs Hc _ IH]; constructor; [|done].
    apply (type2label_lookup set_iter set_iter_NoDup) in Hc.
    rewrite Hnum. by eapply lookup_lt_Some.
  - induction Hcodes as [|t c ts cs Hc _ IH]; constructor; [|done].
    apply (label_to_type_lookup set_iter set_iter_NoDup).
    by apply (type2label_lookup set_iter set_iter_NoDup).
Qed.

(** X11. The codes are dense: the dictionary of [type2label_dict] gives
    exactly the codes 0, ..., num_classes - 1, each to exactly one training
    label, so that the class count returned at line 177 is one more than
    the largest code whatever the order in which the set is walked. *)
Theorem type2label_codes_dense
    (set_iter : list string → list string)
    (set_iter_NoDup : ∀ l, NoDup (set_iter l))
    (set_iter_elem : ∀ l x, x ∈ set_iter l ↔ x ∈ l)
    (train : list string) (c : nat) :
  let d := type2label_dict set_iter train in
  ((c < num_classes d)%nat ↔ ∃ s, s ∈ train ∧ dict_lookup d s = Some c) ∧
  (∀ s s', dict_lookup d s = Some c → dict_lookup d s' = Some c → s = s').
Proof.
  intros d.
  assert (Hnum : num_classes d = length (set_iter train)).
  { unfold num_classes, d.
    rewrite (type2label_dict_zip set_iter set_iter_NoDup).
    rewrite length_zip_with, length_seq. lia. }
  split; [split|].
  - intros Hc. rewrite Hnum in Hc.
    destruct (lookup_lt_is_Some_2 _ _ Hc) as [s Hs]. exists s. split.
    + apply set_iter_elem. by eapply list_elem_of_lookup_2.
    + by apply (type2label_lookup set_iter set_iter_NoDup).
  - intros (s & _ & Hs).
    apply (type2label_lookup set_iter set_iter_NoDup) in Hs.
    rewrite Hnum. by eapply lookup_lt_Some.
  - intros s s' Hs Hs'.
    apply (type2label_lookup set_iter set_iter_NoDup) in Hs, Hs'.
    congruence.
Qed.


(** * Further properties: pairing cells with labels (lines 155-166) *)

Section Pairing.
Context {F : Type} `{Arith F}.

Lemma pair_loop_seq line (data : list (list F)) (labels : list nat) a k out :
  (a + k ≤ length data)%nat →
  pair_loop line data labels (seq a k) out
  = if decide (a + k ≤ length labels)%nat
    then inr (out ++ zip (take k (drop a data)) (take k (drop a labels)))
    else if decide (k = 0)%nat then inr out else inl (IndexError line).
Proof.
  revert a out. induction k as [|k IH]; intros a out Hk.
  - simpl. rewrite ?take_0. simpl. rewrite app_nil_r. by repeat case_decide.
  - cbn [seq pair_loop].
    destruct (lookup_lt_is_Some_2 data a) as [x Hx]; [lia|]. rewrite Hx.
    destruct (labels !! a) as [y|] eqn:Hy.
    + rewrite IH by lia.
      rewrite (drop_S _ _ _ Hx), (drop_S _ _ _ Hy), !firstn_cons. simpl.
      rewrite <- app_assoc. simpl.
      repeat case_decide; try lia; try done.
      apply lookup_lt_Some in Hy. lia.
    + apply lookup_ge_None in Hy. repeat case_decide; try lia; done.
Qed.

Lemma pair_records_run line (data : ndarray F) (labels : list nat) :
  pair_records line data labels
  = if decide (length (rows data) ≤ length labels)%nat
    then inr (zip (rows data) labels)
    else inl (IndexError line).
Proof.
  unfold pair_records. rewrite pair_loop_seq by (simpl; lia). simpl.
  rewrite !drop_0, firstn_all.
  case_decide as Hle.
  - f_equal. revert Hle. generalize (rows data). intros d.
    revert labels. induction d as [|x d IH]; intros [|y labels] Hle; simpl in *;
      try done; try lia.
    f_equal. apply IH. lia.
  - case_decide; [lia|done].
Qed.

Lemma np_transpose_rows (a : ndarray F) :
  length (rows (np_transpose a)) = ncols a ∧
  Forall (λ r, length r = length (rows a)) (rows (np_transpose a)).
Proof.
  unfold np_transpose. simpl. split.
  - by rewrite length_map, length_seq.
  - apply Forall_forall. intros r (j & -> & _)%list_elem_of_fmap.
    unfold column. by rewrite length_map.
Qed.

End Pairing.

(** X12. Lines 155-166: after the transposition there is one record per
    cell (column of the array), in column order; record i pairs the
    expression vector of cell i (column i, one value per gene kept) with
    the i-th label code.  Labels beyond the number of cells are ignored
    without a word; with fewer labels than cells the indexing
    [train_label[i]] raises IndexError. *)
Theorem pair_records_transpose {F : Type} `{Arith F}
    (line : nat) (a : ndarray F) (labels : list nat) :
  pair_records line (np_transpose a) labels
  = if decide (ncols a ≤ length labels)%nat
    then inr (zip (map (λ j, column j a) (seq 0 (ncols a))) (take (ncols a) labels))
    else inl (IndexError line).
Proof.
  rewrite pair_records_run.
  destruct (np_transpose_rows a) as [-> _].
  case_decide; [|done]. f_equal. unfold np_transpose. simpl.
  set (cols := map (λ j, column j a) (seq 0 (ncols a))).
  assert (Hlen : length cols = ncols a) by (unfold cols; by rewrite length_map, length_seq).
  rewrite <- Hlen. symmetry. apply (zip_with_take_r _ cols labels).
Qed.

(** * Further properties: the body of [CSV_IO] as a whole *)

Lemma CSV_IO_scale_sets_raises {F : Type} `{Arith F}
    (str_upper : string → string) (set_iter : list string → list string)
    (train_set test_set : DataFrame F) (train_label test_label : list string)
    (h h2 : heap F) (e : exn) :
  scale_sets (fresh (dom h))
    (<[fresh (dom h) := VFrame <$> [upper_dedup str_upper train_set;
                                    upper_dedup str_upper test_set]]> h) = (inl e, h2) →
  CSV_IO str_upper set_iter train_set test_set train_label test_label h = (inl e, h2).
Proof.
  intros Hrun. unfold CSV_IO.
  rewrite (bind_run_inr (new_list _) _ h (fresh (dom h)) _ eq_refl).
  unfold mbind at 1, Py_bind at 1.
  change (VFrame <$> [?a; ?b]) with [VFrame a; VFrame b] in Hrun.
  by rewrite Hrun.
Qed.

Lemma CSV_IO_scale_sets_returns {F : Type} `{Arith F}
    (str_upper : string → string) (set_iter : list string → list string)
    (train_set test_set : DataFrame F) (train_label test_label : list string)
    (h h2 : heap F) (o0 o1 : ndarray F) :
  scale_sets (fresh (dom h))
    (<[fresh (dom h) := VFrame <$> [upper_dedup str_upper train_set;
                                    upper_dedup str_upper test_set]]> h)
    = (inr (fresh (dom h)), h2) →
  h2 !! fresh (dom h) = Some [VArray o0; VArray o1] →
  CSV_IO str_upper set_iter train_set test_set train_label test_label h
  = (after_scale_sets set_iter o0 o1 train_label test_label, h2).
Proof.
  intros Hrun Hh2. unfold CSV_IO.
  rewrite (bind_run_inr (new_list _) _ h (fresh (dom h)) _ eq_refl).
  change (VFrame <$> [?a; ?b]) with [VFrame a; VFrame b] in Hrun.
  rewrite (bind_run_inr _ _ _ _ _ Hrun).
  erewrite bind_run_inr.
  2:{ unfold unpack2. erewrite bind_len_run by done. simpl.
      erewrite bind_getitem_run; [|done|done].
      erewrite bind_getitem_run; [|done|done]. reflexivity. }
  unfold after_scale_sets.
  destruct (convert_type2label train_label _) as [e|train_codes]; [reflexivity|].
  destruct (convert_type2label test_label _) as [e|test_codes]; [reflexivity|].
  rewrite !(bind_lift_inr _ _ _ _ eq_refl).
  change (as_array ?e (VArray ?a)) with (mret (M := Py F) a).
  rewrite !bind_ret_run.
  cbn [mbind result_bind].
  destruct (pair_records 163 _ _) as [e|data]; [reflexivity|].
  destruct (pair_records 166 _ _) as [e|validation]; reflexivity.
Qed.

Lemma CSV_IO_reaches_labels {F : Type} `{Arith F}
    (str_upper : string → string) (set_iter : list string → list string)
    (train_set test_set : DataFrame F) (train_label test_label : list string)
    (h : heap F) :
  let frames := [upper_dedup str_upper train_set; upper_dedup str_upper test_set] in
  rectangular train_set → rectangular test_set →
  rows_reaching_cv frames ≠ [] →
  ∃ o0 o1 h2,
    CSV_IO str_upper set_iter train_set test_set train_label test_label h
    = (after_scale_sets set_iter o0 o1 train_label test_label, h2) ∧
    ncols o0 = length (columns train_set) ∧
    ncols o1 = length (columns test_set) ∧
    length (rows o0) = length (rows o1) ∧
    (length (rows o0) ≤ length (common_genes frames))%nat.
Proof.
  intros frames Htrain Htest Hrows.
  set (l := fresh (dom h)). set (h1 := <[l := VFrame <$> frames]> h).
  assert (Hl : h1 !! l = Some (VFrame <$> frames)) by apply lookup_insert_eq.
  assert (Hwf : Forall wf_frame frames).
  { repeat constructor; by apply upper_dedup_wf_frame. }
  assert (Hne : frames ≠ []) by done.
  destruct (scale_sets_outcomes l h1 frames Hl Hwf Hne)
    as (aligned & total & logged & _ & _ & _ & Hncols & _ & _ & Hlc & Hlw
        & Hlr & Hcases).
  destruct Hcases as [[Hcg _]|[(_ & Hnil & _)|(_ & _ & keep & Hkeep & Hr)]].
  { exfalso. apply Hrows. by eapply rows_reaching_cv_needs_index. }
  { done. }
  set (final := mkArray (ncols logged) (compress keep (rows logged))) in Hr.
  assert (Hshape : Forall2 (λ df out, ncols out = length (columns df) ∧ wf_array out ∧
                     length (rows out) = length (rows final))
            frames (resplit (sep_points frames) final (length frames))).
  { apply resplit_frames_shape.
    - unfold wf_array, final. simpl. by apply compress_Forall.
    - unfold final. simpl. by rewrite Hlc. }
  remember (resplit (sep_points frames) final (length frames)) as outs eqn:Eouts.
  unfold frames in Hshape at 1.
  apply Forall2_cons_inv_l in Hshape as (o0 & outs' & (Hn0 & _ & Hr0) & Hshape & ->).
  apply Forall2_cons_inv_l in Hshape as (o1 & outs'' & (Hn1 & _ & Hr1) & Hshape & ->).
  apply Forall2_nil_inv_l in Hshape as ->.
  exists o0, o1. eexists. split; [|split; [exact Hn0|split; [exact Hn1|split]]].
  - eapply CSV_IO_scale_sets_returns; [exact Hr|]. apply lookup_insert_eq.
  - by rewrite Hr0, Hr1.
  - rewrite Hr0, <- Hlr. unfold final. simpl.
    apply sublist_length, compress_sublist.
Qed.

Lemma zip_codes_Forall2 {A B C} (P : B → C → Prop) (R : list A) ts cs :
  Forall2 P ts cs → (length R ≤ length ts)%nat →
  Forall2 (λ rec t, P t rec.2) (zip R cs) (take (length R) ts).
Proof.
  intros HP. revert R. induction HP as [|t c ts cs Hp _ IH]; intros [|r R] Hlen;
    simpl in *; try constructor; try lia; [done|]. apply IH. lia.
Qed.

(** X13. When [CSV_IO] gets through: for frames that are rectangular, with
    a row left at the CV step of line 89, test labels that all occur among
    the training labels, and at least as many labels as cells on both
    sides, the body returns one record per training cell and one per test
    cell, every expression vector of the same length (the number of genes
    kept, at most the number of common genes), the i-th record carrying
    the code that the dictionary gives to the i-th label, together with the
    number of distinct training labels as the class count. *)
Theorem CSV_IO_returns {F : Type} `{Arith F}
    (str_upper : string → string) (set_iter : list string → list string)
    (set_iter_NoDup : ∀ l, NoDup (set_iter l))
    (set_iter_elem : ∀ l x, x ∈ set_iter l ↔ x ∈ l)
    (train_set test_set : DataFrame F) (train_label test_label : list string)
    (h : heap F) :
  let frames := [upper_dedup str_upper train_set; upper_dedup str_upper test_set] in
  let d := type2label_dict set_iter train_label in
  rectangular train_set → rectangular test_set →
  rows_reaching_cv frames ≠ [] →
  (∀ t, t ∈ test_label → t ∈ train_label) →
  (length (columns train_set) ≤ length train_label)%nat →
  (length (columns test_set) ≤ length test_label)%nat →
  ∃ data validation n,
    (CSV_IO str_upper set_iter train_set test_set train_label test_label h).1
      = inr (data, validation, length (remove_dups train_label)) ∧
    length data = length (columns train_set) ∧
    length validation = length (columns test_set) ∧
    (n ≤ length (common_genes frames))%nat ∧
    Forall (λ rec, length rec.1 = n) (data ++ validation) ∧
    Forall2 (λ rec t, dict_lookup d t = Some rec.2)
            data (take (length (columns train_set)) train_label) ∧
    Forall2 (λ rec t, dict_lookup d t = Some rec.2)
            validation (take (length (columns test_set)) test_label).
Proof.
  intros frames d Htrain Htest Hrows Hsub Hlen0 Hlen1.
  destruct (CSV_IO_reaches_labels str_upper set_iter train_set test_set train_label test_label h
              Htrain Htest Hrows) as (o0 & o1 & h2 & -> & Hn0 & Hn1 & Hr01 & Hcg).
  destruct (convert_known_labels set_iter set_iter_NoDup set_iter_elem
              train_label train_label) as (c0 & Hc0 & Hcodes0); [done|].
  destruct (convert_known_labels set_iter set_iter_NoDup set_iter_elem
              train_label test_label Hsub) as (c1 & Hc1 & Hcodes1).
  destruct (np_transpose_rows o0) as [Ht0 Hrow0].
  destruct (np_transpose_rows o1) as [Ht1 Hrow1].
  pose proof Hcodes0 as Hl0. apply Forall2_length in Hl0.
  pose proof Hcodes1 as Hl1. apply Forall2_length in Hl1.
  exists (zip (rows (np_transpose o0)) c0), (zip (rows (np_transpose o1)) c1),
         (length (rows o0)).
  split; [|split; [|split; [|split; [done|split; [|split]]]]].
  - cbn [fst]. unfold after_scale_sets. rewrite Hc0, Hc1. cbn [mbind result_bind].
    rewrite !pair_records_run, Ht0, Ht1.
    rewrite !decide_True by lia. cbn [mbind result_bind mret result_ret].
    by rewrite (num_classes_distinct set_iter set_iter_NoDup set_iter_elem).
  - rewrite length_zip_with, Ht0. lia.
  - rewrite length_zip_with, Ht1. lia.
  - apply Forall_app. split; apply Forall_forall; intros [r c] Hin; simpl.
    + apply elem_of_zip_l in Hin. simpl in Hin.
      by apply (proj1 (Forall_forall _ _) Hrow0).
    + apply elem_of_zip_l in Hin. simpl in Hin. rewrite Hr01.
      by apply (proj1 (Forall_forall _ _) Hrow1).
  - rewrite <- Hn0, <- Ht0.
    apply (zip_codes_Forall2 (λ t c, dict_lookup d t = Some c)); [done|]. lia.
  - rewrite <- Hn1, <- Ht1.
    apply (zip_codes_Forall2 (λ t c, dict_lookup d t = Some c)); [done|]. lia.
Qed.

(** X14. How [CSV_IO] fails, in the order of the source: first the errors
    of [scale_sets] (IndexError from line 80 when the upper-cased frames
    share no gene, from line 90 when no row reaches the CV step); then,
    only once the matrices have been normalized, KeyError from line 52 for
    a test label that is not a training label; then IndexError from line
    163, or else 166, when there are fewer labels than cells. *)
Theorem CSV_IO_raises {F : Type} `{Arith F}
    (str_upper : string → string) (set_iter : list string → list string)
    (set_iter_NoDup : ∀ l, NoDup (set_iter l))
    (set_iter_elem : ∀ l x, x ∈ set_iter l ↔ x ∈ l)
    (train_set test_set : DataFrame F) (train_label test_label : list string)
    (h : heap F) :
  let frames := [upper_dedup str_upper train_set; upper_dedup str_upper test_set] in
  let run := (CSV_IO str_upper set_iter train_set test_set train_label test_label h).1 in
  rectangular train_set → rectangular test_set →
  (rows_reaching_cv frames = [] →
     run = inl (IndexError (if decide (common_genes frames = []) then 80 else 90))) ∧
  (rows_reaching_cv frames ≠ [] →
     ∀ t, t ∈ test_label → t ∉ train_label →
     ∃ t', t' ∈ test_label ∧ (t' ∉ train_label) ∧ run = inl (KeyError 52 t')) ∧
  (rows_reaching_cv frames ≠ [] → (∀ t, t ∈ test_label → t ∈ train_label) →
     (length train_label < length (columns train_set))%nat →
     run = inl (IndexError 163)) ∧
  (rows_reaching_cv frames ≠ [] → (∀ t, t ∈ test_label → t ∈ train_label) →
     (length (columns train_set) ≤ length train_label)%nat →
     (length test_label < length (columns test_set))%nat →
     run = inl (IndexError 166)).
Proof.
  intros frames run Htrain Htest.
  split; [|split; [|split]].
  - intros Hrows. unfold run.
    set (l := fresh (dom h)). set (h1 := <[l := VFrame <$> frames]> h).
    assert (Hl : h1 !! l = Some (VFrame <$> frames)) by apply lookup_insert_eq.
    assert (Hwf : Forall wf_frame frames).
    { repeat constructor; by apply upper_dedup_wf_frame. }
    assert (Hne : frames ≠ []) by done.
    destruct (scale_sets_outcomes l h1 frames Hl Hwf Hne)
      as (aligned & total & logged & _ & _ & _ & _ & _ & _ & _ & _ & _ & Hcases).
    destruct Hcases as [[Hcg Hr]|[(Hcg & _ & Hr)|(_ & Hrows' & _)]]; [| |done].
    + erewrite CSV_IO_scale_sets_raises by exact Hr. by rewrite decide_True.
    + erewrite CSV_IO_scale_sets_raises by exact Hr. by rewrite decide_False.
  - intros Hrows t Ht Hnt. unfold run.
    destruct (CSV_IO_reaches_labels str_upper set_iter train_set test_set train_label test_label h
                Htrain Htest Hrows) as (o0 & o1 & h2 & -> & _).
    destruct (convert_known_labels set_iter set_iter_NoDup set_iter_elem
                train_label train_label) as (c0 & Hc0 & _); [done|].
    destruct (convert_unknown_label set_iter set_iter_NoDup set_iter_elem
                train_label test_label t Ht Hnt) as (t' & Ht' & Hnt' & Hc1).
    exists t'. split; [done|]. split; [done|].
    cbn [fst]. unfold after_scale_sets. by rewrite Hc0, Hc1.
  - intros Hrows Hsub Hlen. unfold run.
    destruct (CSV_IO_reaches_labels str_upper set_iter train_set test_set train_label test_label h
                Htrain Htest Hrows) as (o0 & o1 & h2 & -> & Hn0 & _).
    destruct (convert_known_labels set_iter set_iter_NoDup set_iter_elem
                train_label train_label) as (c0 & Hc0 & Hcodes0); [done|].
    destruct (convert_known_labels set_iter set_iter_NoDup set_iter_elem
                train_label test_label Hsub) as (c1 & Hc1 & _).
    destruct (np_transpose_rows o0) as [Ht0 _].
    pose proof Hcodes0 as Hl0. apply Forall2_length in Hl0.
    cbn [fst]. unfold after_scale_sets. rewrite Hc0, Hc1. cbn [mbind result_bind].
    rewrite (pair_records_run 163), Ht0. by rewrite decide_False by lia.
  - intros Hrows Hsub Hlen0 Hlen1. unfold run.
    destruct (CSV_IO_reaches_labels str_upper set_iter train_set test_set train_label test_label h
                Htrain Htest Hrows) as (o0 & o1 & h2 & -> & Hn0 & Hn1 & _).
    destruct (convert_known_labels set_iter set_iter_NoDup set_iter_elem
                train_label train_label) as (c0 & Hc0 & Hcodes0); [done|].
    destruct (convert_known_labels set_iter set_iter_NoDup set_iter_elem
                train_label test_label Hsub) as (c1 & Hc1 & Hcodes1).
    destruct (np_transpose_rows o0) as [Ht0 _].
    destruct (np_transpose_rows o1) as [Ht1 _].
    pose proof Hcodes0 as Hl0. apply Forall2_length in Hl0.
    pose proof Hcodes1 as Hl1. apply Forall2_length in Hl1.
    cbn [fst]. unfold after_scale_sets. rewrite Hc0, Hc1. cbn [mbind result_bind].
    rewrite !pair_records_run, Ht0, Ht1.
    rewrite (decide_True (P := (ncols o0 ≤ length c0)%nat)) by lia.
    cbn [mbind result_bind].
    by rewrite decide_False by lia.
Qed.

(** ** The further properties on sample inputs *)

(** X1 on [raw_train]: Tp53 and TP53 fall together. *)
Lemma upper_dedup_wf_witness :
  let df := MoreExamples.raw_train in
  rectangular df ∧
  wf_frame (upper_dedup upper_ascii df) ∧
  index (upper_dedup upper_ascii df) = ["ACTB"; "TP53"; "GAPDH"; "MYC"].
Proof.
  intros df.
  assert (H1 : rectangular df) by compute_done.
  split; [assumption|]. split.
  - exact (proj1 (upper_dedup_wf upper_ascii df H1)).
  - vm_compute; reflexivity.
Defined.

(** X2 on [raw_train]: the row kept for TP53 is the one labelled Tp53. *)
Lemma upper_dedup_keeps_first_witness :
  let df := MoreExamples.raw_train in
  let r := [Binary32.of_int 1; Binary32.of_int 3] in
  rectangular df ∧
  index (upper_dedup upper_ascii df) !! 1%nat = Some "TP53" ∧
  values (upper_dedup upper_ascii df) !! 1%nat = Some r ∧
  ∃ i s, index df !! i = Some s ∧ upper_ascii s = "TP53" ∧ values df !! i = Some r ∧
    ∀ j s', (j < i)%nat → index df !! j = Some s' → upper_ascii s' ≠ "TP53".
Proof.
  intros df r.
  assert (H1 : rectangular df) by compute_done.
  assert (H2 : index (upper_dedup upper_ascii df) !! 1%nat = Some "TP53")
    by (vm_compute; reflexivity).
  assert (H3 : values (upper_dedup upper_ascii df) !! 1%nat = Some r)
    by (vm_compute; reflexivity).
  split; [assumption|]. split; [assumption|]. split; [assumption|].
  exact (upper_dedup_keeps_first upper_ascii df 1 "TP53" r H1 H2 H3).
Defined.

(** X3 on [raw_test]. *)
Lemma upper_dedup_no_clash_witness :
  let df := MoreExamples.raw_test in
  rectangular df ∧
  NoDup (map upper_ascii (index df)) ∧
  upper_dedup upper_ascii df
    = mkFrame (map upper_ascii (index df)) (columns df) (values df).
Proof.
  intros df.
  assert (H1 : rectangular df) by compute_done.
  assert (H2 : NoDup (map upper_ascii (index df))) by compute_done.
  split; [assumption|]. split; [assumption|].
  exact (upper_dedup_no_clash upper_ascii df H1 H2).
Defined.

(** X4 on [uniform_sets], the two frames exchanged. *)
Lemma common_genes_permutation_witness :
  let frames := Examples.uniform_sets in
  frames ≡ₚ reverse frames ∧
  common_genes frames = common_genes (reverse frames).
Proof.
  intros frames.
  assert (H1 : frames ≡ₚ reverse frames) by apply perm_swap.
  split; [assumption|].
  exact (common_genes_permutation frames (reverse frames) H1).
Defined.

(** X5 on a store that holds the empty list. *)
Lemma scale_sets_rejects_at_entry_witness :
  let h : heap Binary32.float32 := {[ Examples.sets_ref := [] ]} in
  h !! Examples.sets_ref = Some [] ∧
  scale_sets Examples.sets_ref h = (inl (IndexError 67), h).
Proof.
  intros h.
  assert (H1 : h !! Examples.sets_ref = Some []) by reflexivity.
  split; [assumption|].
  exact (proj1 (scale_sets_rejects_at_entry Examples.sets_ref h [] H1) eq_refl).
Defined.

(** X6 on [uniform_sets]. *)
Lemma scale_sets_twice_witness :
  let frames := Examples.uniform_sets in
  let h := Examples.store_of frames in
  let h' := (scale_sets Examples.sets_ref h).2 in
  h !! Examples.sets_ref = Some (VFrame <$> frames) ∧
  Forall wf_frame frames ∧
  frames ≠ [] ∧
  scale_sets Examples.sets_ref h = (inr Examples.sets_ref, h') ∧
  scale_sets Examples.sets_ref h' = (inl (AttributeError 67), h').
Proof.
  intros frames h h'.
  assert (H1 : h !! Examples.sets_ref = Some (VFrame <$> frames)) by reflexivity.
  assert (H2 : Forall wf_frame frames) by compute_done.
  assert (H3 : frames ≠ []) by discriminate.
  assert (H4 : (scale_sets Examples.sets_ref h).1 = inr Examples.sets_ref)
    by (vm_compute; reflexivity).
  assert (H5 : scale_sets Examples.sets_ref h = (inr Examples.sets_ref, h')).
  { rewrite <- H4. apply surjective_pairing. }
  split_and!; try assumption.
  exact (scale_sets_twice Examples.sets_ref h h' frames H1 H2 H3 H5).
Defined.

(** X7 on [uniform_sets]. *)
Lemma scale_sets_outcome_cases_witness :
  let frames := Examples.uniform_sets in
  let h := Examples.store_of frames in
  h !! Examples.sets_ref = Some (VFrame <$> frames) ∧
  Forall wf_frame frames ∧
  frames ≠ [] ∧
  ((scale_sets Examples.sets_ref h).1 = inr Examples.sets_ref
     ↔ rows_reaching_cv frames ≠ []).
Proof.
  intros frames h.
  assert (H1 : h !! Examples.sets_ref = Some (VFrame <$> frames)) by reflexivity.
  assert (H2 : Forall wf_frame frames) by compute_done.
  assert (H3 : frames ≠ []) by discriminate.
  split_and!; try assumption.
  exact (proj1 (scale_sets_outcome_cases Examples.sets_ref h frames H1 H2 H3)).
Defined.

(** X8 on [uniform_sets]. *)
Lemma scale_sets_outputs_rejoin_witness :
  let frames := Examples.uniform_sets in
  let h := Examples.store_of frames in
  let h' := (scale_sets Examples.sets_ref h).2 in
  h !! Examples.sets_ref = Some (VFrame <$> frames) ∧
  Forall wf_frame frames ∧
  frames ≠ [] ∧
  scale_sets Examples.sets_ref h = (inr Examples.sets_ref, h') ∧
  ∃ outs filtered,
    h' !! Examples.sets_ref = Some (VArray <$> outs) ∧
    (aligned_sets frames ≫= combined) ≫= normalize_and_filter = inr filtered ∧
    outs = resplit (sep_points frames) filtered (length frames) ∧
    hstack (rows <$> outs) (length (rows filtered)) = rows filtered.
Proof.
  intros frames h h'.
  assert (H1 : h !! Examples.sets_ref = Some (VFrame <$> frames)) by reflexivity.
  assert (H2 : Forall wf_frame frames) by compute_done.
  assert (H3 : frames ≠ []) by discriminate.
  assert (H4 : (scale_sets Examples.sets_ref h).1 = inr Examples.sets_ref)
    by (vm_compute; reflexivity).
  assert (H5 : scale_sets Examples.sets_ref h = (inr Examples.sets_ref, h')).
  { rewrite <- H4. apply surjective_pairing. }
  split_and!; try assumption.
  destruct (scale_sets_outputs_rejoin Examples.sets_ref h h' frames H1 H2 H3 H5)
    as (outs & aligned & total & filtered & logged & Hh & _ & Hal & Hc & Hf & _ & _
        & Houts & Hjoin & _).
  exists outs, filtered. split; [assumption|]. split; [|split; assumption].
  rewrite Hal. simpl. rewrite Hc. exact Hf.
Defined.

(** X9 on the counts of [small_matrix]: one row is returned. *)
Lemma normalize_and_filter_rows_witness :
  let total := Examples.small_matrix in
  ∃ out,
    normalize_and_filter total = inr out ∧
    length (rows out) = 1%nat ∧
    Forall (λ r, flt fzero (np_mean r) = true) (rows out).
Proof.
  intros total.
  destruct (normalize_and_filter total) as [e|out] eqn:Hout;
    [vm_compute in Hout; discriminate|].
  exists out. split; [reflexivity|]. split.
  - vm_compute in Hout. injection Hout as <-. reflexivity.
  - destruct (normalize_and_filter_rows total out Hout)
      as (p1 & p99 & q1 & q99 & m & _ & _ & _ & _ & _ & _ & _ & Hmean).
    exact Hmean.
Defined.

(** X10 with the set walked by [last_occurrences]. *)
Lemma encode_decode_labels_witness :
  let set_iter := Examples.last_occurrences in
  let d := type2label_dict set_iter Examples.train_labels in
  (∀ l, NoDup (set_iter l)) ∧
  (∀ l x, x ∈ set_iter l ↔ x ∈ l) ∧
  (∀ t, t ∈ Examples.test_labels → t ∈ Examples.train_labels) ∧
  ∃ codes,
    convert_type2label Examples.test_labels d = inr codes ∧
    length codes = length Examples.test_labels ∧
    Forall (λ c, (c < num_classes d)%nat) codes ∧
    Forall2 (λ c t, dict_lookup (label_to_type_dict d) c = Some t)
            codes Examples.test_labels.
Proof.
  intros set_iter d.
  assert (H1 : ∀ l, NoDup (set_iter l)) by (intros l; apply NoDup_remove_dups).
  assert (H2 : ∀ l x, x ∈ set_iter l ↔ x ∈ l) by (intros l x; apply elem_of_remove_dups).
  assert (H3 : ∀ t, t ∈ Examples.test_labels → t ∈ Examples.train_labels).
  { intros t Ht. unfold Examples.test_labels in Ht.
    repeat (apply elem_of_cons in Ht as [->|Ht]); try compute_done.
    by apply elem_of_nil in Ht. }
  split_and!; try assumption.
  exact (encode_decode_labels set_iter H1 H2 Examples.train_labels Examples.test_labels H3).
Defined.

(** X11 with the set walked by [last_occurrences]: code 2 is in use. *)
Lemma type2label_codes_dense_witness :
  let set_iter := Examples.last_occurrences in
  let d := type2label_dict set_iter Examples.train_labels in
  (∀ l, NoDup (set_iter l)) ∧
  (∀ l x, x ∈ set_iter l ↔ x ∈ l) ∧
  ((2 < num_classes d)%nat ↔ ∃ s, s ∈ Examples.train_labels ∧ dict_lookup d s = Some 2%nat).
Proof.
  intros set_iter d.
  assert (H1 : ∀ l, NoDup (set_iter l)) by (intros l; apply NoDup_remove_dups).
  assert (H2 : ∀ l x, x ∈ set_iter l ↔ x ∈ l) by (intros l x; apply elem_of_remove_dups).
  split_and!; try assumption.
  exact (proj1 (type2label_codes_dense set_iter H1 H2 Examples.train_labels 2)).
Defined.

(** X13 on [raw_train] and [raw_test]: two training records, one test
    record, three genes each, two classes. *)
Lemma CSV_IO_returns_witness :
  let set_iter := Examples.last_occurrences in
  let train_set := MoreExamples.raw_train in
  let test_set := MoreExamples.raw_test in
  let train_label := MoreExamples.cell_types in
  let test_label := MoreExamples.test_types in
  let frames := [upper_dedup upper_ascii train_set; upper_dedup upper_ascii test_set] in
  (∀ l, NoDup (set_iter l)) ∧
  (∀ l x, x ∈ set_iter l ↔ x ∈ l) ∧
  rectangular train_set ∧ rectangular test_set ∧
  rows_reaching_cv frames ≠ [] ∧
  (∀ t, t ∈ test_label → t ∈ train_label) ∧
  (length (columns train_set) ≤ length train_label)%nat ∧
  (length (columns test_set) ≤ length test_label)%nat ∧
  ∃ data validation,
    (CSV_IO upper_ascii set_iter train_set test_set train_label test_label ∅).1
      = inr (data, validation, 2%nat) ∧
    length data = 2%nat ∧ length validation = 1%nat.
Proof.
  intros set_iter train_set test_set train_label test_label frames.
  assert (H1 : ∀ l, NoDup (set_iter l)) by (intros l; apply NoDup_remove_dups).
  assert (H2 : ∀ l x, x ∈ set_iter l ↔ x ∈ l) by (intros l x; apply elem_of_remove_dups).
  assert (H3 : rectangular train_set) by compute_done.
  assert (H4 : rectangular test_set) by compute_done.
  assert (H5 : rows_reaching_cv frames ≠ []) by (vm_compute; discriminate).
  assert (H6 : ∀ t, t ∈ test_label → t ∈ train_label).
  { intros t Ht. unfold test_label, MoreExamples.test_types in Ht.
    repeat (apply elem_of_cons in Ht as [->|Ht]); try compute_done.
    by apply elem_of_nil in Ht. }
  assert (H7 : (length (columns train_set) ≤ length train_label)%nat) by (simpl; lia).
  assert (H8 : (length (columns test_set) ≤ length test_label)%nat) by (simpl; lia).
  split_and!; try assumption.
  destruct (CSV_IO_returns upper_ascii set_iter H1 H2 train_set test_set
              train_label test_label ∅ H3 H4 H5 H6 H7 H8)
    as (data & validation & n & Hrun & Hd & Hv & _).
  exists data, validation. split_and!; assumption.
Defined.

(** X14 on [raw_train] and [raw_test] with a test label that the training
    labels do not have. *)
Lemma CSV_IO_raises_witness :
  let set_iter := Examples.last_occurrences in
  let train_set := MoreExamples.raw_train in
  let test_set := MoreExamples.raw_test in
  let train_label := MoreExamples.cell_types in
  let test_label := ["NK cell"] in
  let frames := [upper_dedup upper_ascii train_set; upper_dedup upper_ascii test_set] in
  (∀ l, NoDup (set_iter l)) ∧
  (∀ l x, x ∈ set_iter l ↔ x ∈ l) ∧
  rectangular train_set ∧ rectangular test_set ∧
  rows_reaching_cv frames ≠ [] ∧
  ∃ t', t' ∈ test_label ∧ (t' ∉ train_label) ∧
    (CSV_IO upper_ascii set_iter train_set test_set train_label test_label ∅).1
      = inl (KeyError 52 t').
Proof.
  intros set_iter train_set test_set train_label test_label frames.
  assert (H1 : ∀ l, NoDup (set_iter l)) by (intros l; apply NoDup_remove_dups).
  assert (H2 : ∀ l x, x ∈ set_iter l ↔ x ∈ l) by (intros l x; apply elem_of_remove_dups).
  assert (H3 : rectangular train_set) by compute_done.
  assert (H4 : rectangular test_set) by compute_done.
  assert (H5 : rows_reaching_cv frames ≠ []) by (vm_compute; discriminate).
  split_and!; try assumption.
  refine (proj1 (proj2 (CSV_IO_raises upper_ascii set_iter H1 H2 train_set test_set
              train_label test_label ∅ H3 H4)) H5 "NK cell" _ _).
  - compute_done.
  - compute_done.
Defined.
